(** * TCP text-analysis servers: a shallow embedding of [tcp_server.py] and
    [tcp_server_V2.py]

    The two Python servers read one text payload per connection, analyse it
    and answer with one line.  This development embeds the analysis
    functions and the connection handlers and proves the behaviour the
    specification states about them.

    Modelling choices, all read off the source:
    - a Python [str] is a list of Unicode code points; the character
      predicates and case mappings the code calls ([str.isalpha],
      [str.isspace], [str.strip], [str.lower]) are taken from a character
      database, an interface whose laws fix what the Unicode standard fixes
      for Basic Latin;
    - Python integers are unbounded: counts are [nat], the argument of
      [is_prime] is [Z];
    - a handler is a computation over a [world]: the connection (what
      [recv(n).decode('utf-8')] yields, the lines given to [sendall], whether
      the socket was closed), the log file as text, and the clock;
    - [return], exceptions, [try/except] and [try/finally] are the
      operations of a small monad;
    - console logging ([logging.info] and friends) changes nothing the
      handlers read back and is left out;
    - in a [world] the text read is given whole, [sendall] delivers and
      [write] writes: the handlers on a connection that works.  They are
      followed a second time over a [Wire.world], where the read is cut at
      the size of the buffer and [recv], [decode], [sendall], [open] and
      [write] can fail; [wire_agrees_with_world] relates the two. *)

From Stdlib Require Import List NArith ZArith Bool String Ascii Lia.
From Stdlib Require Import Zdivisibility DecimalString DecimalNat.
Import ListNotations.

(** ** Characters and strings *)

(** A character is its code point. *)
Definition char := N.
Definition str := list char.

(** The code points of a literal whose characters are all below U+0080. *)
Definition str_of (s : string) : str :=
  map N_of_ascii (list_ascii_of_string s).

Fixpoint str_eqb (s t : str) : bool :=
  match s, t with
  | [], [] => true
  | c :: s', d :: t' => N.eqb c d && str_eqb s' t'
  | _, _ => false
  end.

(** Python's truth value of a string: [not s] holds exactly for [""]. *)
Definition is_empty (s : str) : bool :=
  match s with [] => true | _ :: _ => false end.

(** Basic Latin as the Unicode standard has it. *)
Definition ascii_isupper (c : char) : bool := (65 <=? c)%N && (c <=? 90)%N.
Definition ascii_islower (c : char) : bool := (97 <=? c)%N && (c <=? 122)%N.
Definition ascii_isalpha (c : char) : bool := ascii_isupper c || ascii_islower c.
Definition ascii_isspace (c : char) : bool :=
  ((9 <=? c)%N && (c <=? 13)%N) || ((28 <=? c)%N && (c <=? 32)%N).
Definition ascii_lower (c : char) : char :=
  if ascii_isupper c then (c + 32)%N else c.

(** GREEK CAPITAL LETTER SIGMA, the one character [str.lower] maps by
    context, and its two lower-case forms. *)
Definition capital_sigma : char := 931%N.
Definition final_sigma : char := 962%N.
Definition small_sigma : char := 963%N.

(** The part of the Unicode character database the servers consult.
    [tolower_full] is the full lower-case mapping of one character, between
    one and three code points long. *)
Class UnicodeData := {
  isalpha_char : char -> bool;
  isspace_char : char -> bool;
  tolower_full : char -> str;
  is_cased : char -> bool;
  is_case_ignorable : char -> bool;
  tolower_full_length :
    forall c, (1 <= List.length (tolower_full c) <= 3)%nat;
  basic_latin_alpha :
    forall c, (c < 128)%N -> isalpha_char c = ascii_isalpha c;
  basic_latin_space :
    forall c, (c < 128)%N -> isspace_char c = ascii_isspace c;
  basic_latin_lower :
    forall c, (c < 128)%N -> tolower_full c = [ascii_lower c]
}.

Module PyStr.
Section WithUnicode.
Context {U : UnicodeData}.

(** [itertools.dropwhile]: the suffix starting at the first element that
    fails [p]. *)
Fixpoint dropwhile (p : char -> bool) (s : str) : str :=
  match s with
  | [] => []
  | c :: s' => if p c then dropwhile p s' else s
  end.

Definition lstrip (s : str) : str := dropwhile isspace_char s.
Definition rstrip (s : str) : str := rev (dropwhile isspace_char (rev s)).

(** [s.strip()]: leading and trailing whitespace removed. *)
Definition strip (s : str) : str := rstrip (lstrip s).

(** [s.isalpha()]: at least one character, and all of them letters. *)
Definition isalpha (s : str) : bool :=
  negb (is_empty s) && forallb isalpha_char s.

(** The Final_Sigma condition of [str.lower]: going left from the sigma the
    first character that is not case-ignorable is cased, and going right
    there is no such character or it is not cased.  [before] holds the
    characters to the left, nearest first. *)
Definition in_final_sigma_context (before after : str) : bool :=
  match find (fun c => negb (is_case_ignorable c)) before with
  | Some c =>
      is_cased c &&
      match find (fun d => negb (is_case_ignorable d)) after with
      | Some d => negb (is_cased d)
      | None => true
      end
  | None => false
  end.

Definition handle_capital_sigma (before after : str) : char :=
  if in_final_sigma_context before after then final_sigma else small_sigma.

Fixpoint lower_from (before s : str) : str :=
  match s with
  | [] => []
  | c :: rest =>
      (if (c =? capital_sigma)%N
       then [handle_capital_sigma before rest]
       else tolower_full c)
      ++ lower_from (c :: before) rest
  end.

(** [s.lower()]. *)
Definition lower (s : str) : str := lower_from [] s.

End WithUnicode.
End PyStr.

(** ** The world a handler runs in *)

(** What [client_socket.recv(n).decode('utf-8')] yields: the decoded text,
    or an exception (a socket error, or bytes that are not UTF-8).  The one
    read returns at most [n] bytes (1024 in [tcp_server.py], 4096 in
    [tcp_server_V2.py]), so the text has at most [n] code points. *)
Inductive received :=
| Received (text : str)
| RecvFailed.

Record world := mkWorld {
  sock_in : received;
  sock_out : list string;   (* the arguments of [sendall], oldest first *)
  sock_closed : bool;
  log_file : str;           (* the text of the log file *)
  log_writable : bool;      (* whether [open(log_file, 'a')] succeeds *)
  clock : str               (* [datetime.now().strftime(...)] *)
}.

(** How a block of statements ends: it falls through with a value, it
    executes [return], or it raises. *)
Inductive outcome (A : Type) :=
| Normal (a : A)
| Returned
| Raised.
Arguments Normal {A} a.
Arguments Returned {A}.
Arguments Raised {A}.

(** A block of statements over a state [W]. *)
Definition ST (W A : Type) : Type := W -> outcome A * W.

Definition M (A : Type) : Type := ST world A.

Definition ret {W A} (a : A) : ST W A := fun w => (Normal a, w).

Definition bind {W A B} (m : ST W A) (k : A -> ST W B) : ST W B :=
  fun w =>
    match m w with
    | (Normal a, w') => k a w'
    | (Returned, w') => (Returned, w')
    | (Raised, w') => (Raised, w')
    end.

Notation "x <- m ;; k" := (bind m (fun x => k))
  (at level 61, m at next level, right associativity).
Notation "m ;; k" := (bind m (fun _ => k))
  (at level 61, right associativity).

Definition return_ {W A} : ST W A := fun w => (Returned, w).
Definition raise {W A} : ST W A := fun w => (Raised, w).

(** [if b: m] *)
Definition when_ {W} (b : bool) (m : ST W unit) : ST W unit :=
  if b then m else ret tt.

(** [try: body / except Exception: handler] *)
Definition try_except {W} (body handler : ST W unit) : ST W unit :=
  fun w =>
    match body w with
    | (Raised, w') => handler w'
    | r => r
    end.

(** [try: body / finally: final], for a [final] that neither returns nor
    raises: the outcome of [body] stands. *)
Definition try_finally {W} (body final : ST W unit) : ST W unit :=
  fun w =>
    let (r, w') := body w in
    (r, snd (final w')).

(** The world a call leaves behind. *)
Definition run {W} (m : ST W unit) (w : W) : W := snd (m w).

Definition recv_decode : M str :=
  fun w =>
    match sock_in w with
    | Received text => (Normal text, w)
    | RecvFailed => (Raised, w)
    end.

Definition sendall (line : string) : M unit :=
  fun w =>
    (Normal tt,
     mkWorld (sock_in w) (sock_out w ++ [line]) (sock_closed w)
             (log_file w) (log_writable w) (clock w)).

Definition close : M unit :=
  fun w =>
    (Normal tt,
     mkWorld (sock_in w) (sock_out w) true
             (log_file w) (log_writable w) (clock w)).

Definition strftime_now : M str := fun w => (Normal (clock w), w).

(** [open(log_file, 'a', encoding='utf-8')] *)
Definition open_append : M unit :=
  fun w => if log_writable w then (Normal tt, w) else (Raised, w).

(** [f.write(s)] on the file opened for appending. *)
Definition write (s : str) : M unit :=
  fun w =>
    (Normal tt,
     mkWorld (sock_in w) (sock_out w) (sock_closed w)
             (log_file w ++ s) (log_writable w) (clock w)).

Definition newline : string := String (ascii_of_nat 10) EmptyString.

(** [f"{count}"] *)
Definition decimal (n : nat) : string := NilEmpty.string_of_uint (Nat.to_uint n).

(** [f"{count}\n".encode('utf-8')] *)
Definition count_line (count : nat) : string := (decimal count ++ newline)%string.

Definition ERR_NO_DATA : string := ("ERROR: No se recibieron datos" ++ newline)%string.
Definition ERR_INTERNAL : string := ("ERROR: Error interno del servidor" ++ newline)%string.

(** ** [tcp_server.py]: class [TCPServer] *)

Module TCPServer.
Section WithUnicode.
Context {U : UnicodeData}.

Definition ERR_NOT_ALPHA : string :=
  ("ERROR: El mensaje debe contener solo caracteres alfabéticos" ++ newline)%string.

(** [count_last_character]: [text[-1].lower()] is compared, as a string,
    with each character of [text.lower()]. *)
Definition count_last_character (text : str) : nat :=
  if is_empty text then 0%nat
  else
    let last_char := PyStr.lower [last text 0%N] in
    List.length
      (filter (fun char => str_eqb [char] last_char) (PyStr.lower text)).

Definition validate_text (text : str) : bool := PyStr.isalpha text.

Definition handle_client : M unit :=
  try_finally
    (try_except
       (raw <- recv_decode ;;
        let data := PyStr.strip raw in
        when_ (is_empty data) (sendall ERR_NO_DATA ;; return_) ;;
        when_ (negb (validate_text data)) (sendall ERR_NOT_ALPHA ;; return_) ;;
        let count := count_last_character data in
        sendall (count_line count))
       (sendall ERR_INTERNAL))
    close.

End WithUnicode.
End TCPServer.

(** ** [tcp_server_V2.py]: class [TCPServerEnhanced] *)

(** [n ** 0.5] is a binary64 computation: the integer is converted to a
    float and raised to the power one half by the platform's [pow].  What
    [int(n ** 0.5)] is for an integer [n >= 0]:
    - below [2 ^ 52] the conversion is exact and the truncated power is the
      integer square root;
    - from [2 ^ 1024 - 2 ^ 970] on, the conversion raises [OverflowError]
      (the integer rounds past the largest finite float);
    - in between, the value depends on rounding in the conversion and in
      [pow]; it is left to the platform. *)
Class FloatPow := { pow_half_trunc : Z -> Z }.

Definition float_exact_bound : Z := 2 ^ 52.
Definition float_overflow_bound : Z := 2 ^ 1024 - 2 ^ 970.

Module TCPServerEnhanced.
Section WithPlatform.
Context {U : UnicodeData} {F : FloatPow}.

Definition ERR_NOT_LETTERS : string :=
  ("ERROR: El mensaje debe contener solo letras y espacios" ++ newline)%string.
Definition ERR_BLANK : string :=
  ("ERROR: El mensaje no puede estar vacío o contener solo espacios" ++ newline)%string.
Definition ERR_NO_VOWEL : string :=
  ("ERROR: El mensaje debe contener al menos una vocal" ++ newline)%string.

(** [self.vowels = set('aeiouAEIOU')] *)
Definition vowels : str := str_of "aeiouAEIOU".

Definition is_vowel (c : char) : bool := existsb (N.eqb c) vowels.

(** [find_last_vowel]: [None] when the loop over [reversed(text)] ends. *)
Definition find_last_vowel (text : str) : option str :=
  match find is_vowel (rev text) with
  | Some char => Some (PyStr.lower [char])
  | None => None
  end.

(** [not vowel], for a value that is [None] or a string. *)
Definition falsy (vowel : option str) : bool :=
  match vowel with
  | None => true
  | Some s => is_empty s
  end.

(** [f"{last_vowel}"] *)
Definition format_opt (vowel : option str) : str :=
  match vowel with
  | None => str_of "None"
  | Some s => s
  end.

Definition count_vowel_occurrences (text : str) (vowel : option str) : nat :=
  match vowel with
  | None => 0%nat
  | Some v =>
      if is_empty v then 0%nat
      else
        List.length
          (filter (fun char => str_eqb [char] (PyStr.lower v)) (PyStr.lower text))
  end.

(** [range(start, stop, step)] for a positive [step]. *)
Fixpoint range_from (fuel : nat) (i stop step : Z) : list Z :=
  match fuel with
  | O => []
  | S fuel' =>
      if (i <? stop)%Z then i :: range_from fuel' (i + step)%Z stop step
      else []
  end.

Definition range (start stop step : Z) : list Z :=
  range_from (Z.to_nat (stop - start)) start stop step.

(** [int(n ** 0.5)]; [None] stands for the [OverflowError]. *)
Definition int_sqrt_float (n : Z) : option Z :=
  if (n <? float_exact_bound)%Z then Some (Z.sqrt n)
  else if (n <? float_overflow_bound)%Z then Some (pow_half_trunc n)
  else None.

(** The loop of [is_prime]: [False] at the first [i] with [n % i == 0],
    [True] when the range is exhausted. *)
Fixpoint trial_division (n : Z) (candidates : list Z) : bool :=
  match candidates with
  | [] => true
  | i :: rest => if (n mod i =? 0)%Z then false else trial_division n rest
  end.

Definition is_prime (n : Z) : option bool :=
  if (n <? 2)%Z then Some false
  else if (n =? 2)%Z then Some true
  else if (n mod 2 =? 0)%Z then Some false
  else
    match int_sqrt_float n with
    | Some root => Some (trial_division n (range 3 (root + 1) 2))
    | None => None
    end.

Definition validate_text (text : str) : bool :=
  forallb (fun char => isalpha_char char || isspace_char char) text.

Definition nl : str := [10%N].

(** [save_to_log].  The body runs under [self.file_lock]; in the run of one
    handler the lock is free when it is asked for and free again when the
    function ends.  An exception of [open] is caught and only reported on
    the console. *)
Definition save_to_log (timestamp message : str) (count : nat)
    (is_prime_result : str) (last_vowel : option str) : M unit :=
  try_except
    (open_append ;;
     write (str_of "Fecha: " ++ timestamp ++ nl) ;;
     write (str_of "Mensaje: " ++ message ++ nl) ;;
     write ([218%N] ++ str_of "ltima vocal: " ++ format_opt last_vowel ++ nl) ;;
     write (str_of "Repeticiones: " ++ str_of (decimal count) ++ nl) ;;
     write ([191%N] ++ str_of "Es primo?: " ++ is_prime_result ++ nl) ;;
     write (repeat 45%N 80 ++ nl ++ nl))
    (ret tt).

(** A call that may raise. *)
Definition call {A} (r : option A) : M A :=
  match r with
  | Some a => ret a
  | None => raise
  end.

Definition handle_client : M unit :=
  try_finally
    (try_except
       (raw <- recv_decode ;;
        let data := PyStr.strip raw in
        when_ (is_empty data) (sendall ERR_NO_DATA ;; return_) ;;
        when_ (negb (validate_text data)) (sendall ERR_NOT_LETTERS ;; return_) ;;
        when_ (is_empty (PyStr.strip data)) (sendall ERR_BLANK ;; return_) ;;
        let last_vowel := find_last_vowel data in
        when_ (falsy last_vowel) (sendall ERR_NO_VOWEL ;; return_) ;;
        let count := count_vowel_occurrences data last_vowel in
        prime <- call (is_prime (Z.of_nat count)) ;;
        let is_prime_result := if prime : bool then str_of "SI" else str_of "NO" in
        timestamp <- strftime_now ;;
        save_to_log timestamp data count is_prime_result last_vowel ;;
        sendall (count_line count))
       (sendall ERR_INTERNAL))
    close.

End WithPlatform.
End TCPServerEnhanced.

(** ** Summaries

    What a run of each handler amounts to, written as plain functions of
    what was received.  They are not part of the servers: the lemmas
    [handle_client_run] and [handle_client_enhanced_run] below prove that
    the handlers compute them. *)

Module Summary.
Section WithPlatform.
Context {U : UnicodeData} {F : FloatPow}.

(** The line the last-character server sends. *)
Definition last_character_answer (rx : received) : string :=
  match rx with
  | RecvFailed => ERR_INTERNAL
  | Received raw =>
      let data := PyStr.strip raw in
      if is_empty data then ERR_NO_DATA
      else if negb (TCPServer.validate_text data) then TCPServer.ERR_NOT_ALPHA
      else count_line (TCPServer.count_last_character data)
  end.

(** ["SI"] or ["NO"], the primality verdict as it is logged. *)
Definition verdict (prime : bool) : str :=
  if prime then str_of "SI" else str_of "NO".

(** The six chunks of one call of [save_to_log], joined: one log record. *)
Definition log_record (timestamp message : str) (count : nat)
    (is_prime_result : str) (last_vowel : option str) : str :=
  (str_of "Fecha: " ++ timestamp ++ TCPServerEnhanced.nl) ++
  (str_of "Mensaje: " ++ message ++ TCPServerEnhanced.nl) ++
  ([218%N] ++ str_of "ltima vocal: " ++
   TCPServerEnhanced.format_opt last_vowel ++ TCPServerEnhanced.nl) ++
  (str_of "Repeticiones: " ++ str_of (decimal count) ++ TCPServerEnhanced.nl) ++
  ([191%N] ++ str_of "Es primo?: " ++ is_prime_result ++ TCPServerEnhanced.nl) ++
  (repeat 45%N 80 ++ TCPServerEnhanced.nl ++ TCPServerEnhanced.nl).

(** The line the vowel server sends and the text it appends to the log
    file, given the clock and whether the file can be opened. *)
Definition vowel_answer (rx : received) (timestamp : str) (writable : bool)
  : string * str :=
  match rx with
  | RecvFailed => (ERR_INTERNAL, [])
  | Received raw =>
      let data := PyStr.strip raw in
      if is_empty data then (ERR_NO_DATA, [])
      else if negb (TCPServerEnhanced.validate_text data)
      then (TCPServerEnhanced.ERR_NOT_LETTERS, [])
      else if is_empty (PyStr.strip data) then (TCPServerEnhanced.ERR_BLANK, [])
      else
        let last_vowel := TCPServerEnhanced.find_last_vowel data in
        if TCPServerEnhanced.falsy last_vowel
        then (TCPServerEnhanced.ERR_NO_VOWEL, [])
        else
          let count :=
            TCPServerEnhanced.count_vowel_occurrences data last_vowel in
          match TCPServerEnhanced.is_prime (Z.of_nat count) with
          | None => (ERR_INTERNAL, [])
          | Some prime =>
              (count_line count,
               if writable
               then log_record timestamp data count (verdict prime) last_vowel
               else [])
          end
  end.

End WithPlatform.
End Summary.

(** ** A table to evaluate with

    Basic Latin, the Unicode white space, the Greek letters, U+0130 LATIN
    CAPITAL LETTER I WITH DOT ABOVE and U+0307 COMBINING DOT ABOVE, with the
    properties the Unicode character database gives them; every other code
    point is treated as an unassigned one.  It is used only to run the
    servers on texts written with these characters. *)

Definition in_range (lo hi c : char) : bool := (lo <=? c)%N && (c <=? hi)%N.
Arguments in_range (lo hi c)%_N_scope.

Definition greek_capital (c : char) : bool :=
  in_range 913 929 c || in_range 931 937 c.
Definition greek_small (c : char) : bool := in_range 945 969 c.

Definition sample_isalpha (c : char) : bool :=
  ascii_isalpha c || (c =? 304)%N || greek_capital c || greek_small c.

Definition sample_isspace (c : char) : bool :=
  ascii_isspace c || (c =? 133)%N || (c =? 160)%N || (c =? 5760)%N ||
  in_range 8192 8202 c || (c =? 8232)%N || (c =? 8233)%N ||
  (c =? 8239)%N || (c =? 8287)%N || (c =? 12288)%N.

Definition sample_tolower (c : char) : str :=
  if (c <? 128)%N then [ascii_lower c]
  else if (c =? 304)%N then [105%N; 775%N]
  else if greek_capital c then [(c + 32)%N]
  else [c].

Definition sample_cased (c : char) : bool := sample_isalpha c.

Definition sample_case_ignorable (c : char) : bool :=
  (c =? 39)%N || (c =? 46)%N || (c =? 58)%N || (c =? 94)%N || (c =? 96)%N ||
  (c =? 775)%N.

Ltac by_ranges :=
  repeat match goal with
         | |- context [(?a <=? ?b)%N] => destruct (N.leb_spec a b)
         | |- context [(?a <? ?b)%N] => destruct (N.ltb_spec a b)
         | |- context [(?a =? ?b)%N] => destruct (N.eqb_spec a b)
         end;
  simpl; try reflexivity; try lia.

Definition sample_ucd : UnicodeData.
Proof.
  refine {| isalpha_char := sample_isalpha;
            isspace_char := sample_isspace;
            tolower_full := sample_tolower;
            is_cased := sample_cased;
            is_case_ignorable := sample_case_ignorable |}.
  - intro c. unfold sample_tolower.
    destruct (c <? 128)%N; [simpl; lia|].
    destruct (c =? 304)%N; [simpl; lia|].
    destruct (greek_capital c); simpl; lia.
  - intros c Hc.
    unfold sample_isalpha, greek_capital, greek_small, in_range,
      ascii_isalpha, ascii_isupper, ascii_islower.
    by_ranges.
  - intros c Hc.
    unfold sample_isspace, in_range, ascii_isspace.
    by_ranges.
  - intros c Hc. unfold sample_tolower.
    destruct (N.ltb_spec c 128); [reflexivity | lia].
Defined.

(** binary64 arithmetic in which the power one half is the correctly
    rounded square root is one platform; where its value is not fixed by
    the model, the integer square root stands in. *)
Definition sample_pow : FloatPow := {| pow_half_trunc := Z.sqrt |}.

(** The world after a handler that sent [line] and appended [text] to the
    log file. *)
Definition served (line : string) (text : str) (w : world) : world :=
  mkWorld (sock_in w) (sock_out w ++ [line]) true
          (log_file w ++ text) (log_writable w) (clock w).

(** The world [w] with [text] arriving on the connection. *)
Definition receiving (text : str) (w : world) : world :=
  mkWorld (Received text) (sock_out w) (sock_closed w)
          (log_file w) (log_writable w) (clock w).

(** A world for a fresh connection on which [text] arrives. *)
Definition connection (text : str) (log : str) (writable : bool) : world :=
  mkWorld (Received text) [] false log writable (str_of "2024-05-17 10:30:00").

(** Texts written in Basic Latin only. *)
Definition basic_latin (s : str) : bool := forallb (fun c => (c <? 128)%N) s.

(** ** UTF-8, as [str.encode('utf-8')] and [bytes.decode('utf-8')] have it

    Bytes are the characters of a Rocq [string], as in the lines given to
    [sendall]. *)

Module Utf8.

Definition byte (n : N) : ascii := ascii_of_N n.

(** The surrogates U+D800 to U+DFFF have no encoding. *)
Definition is_surrogate (c : char) : bool := (55296 <=? c)%N && (c <? 57344)%N.

(** One character; [None] stands for the [UnicodeEncodeError]. *)
Definition encode_char (c : char) : option string :=
  if (c <? 128)%N then Some (String (byte c) EmptyString)
  else if (c <? 2048)%N then
    Some (String (byte (192 + c / 64))
         (String (byte (128 + c mod 64)) EmptyString))
  else if (c <? 65536)%N then
    if is_surrogate c then None
    else
      Some (String (byte (224 + c / 4096))
           (String (byte (128 + (c / 64) mod 64))
           (String (byte (128 + c mod 64)) EmptyString)))
  else if (c <? 1114112)%N then
    Some (String (byte (240 + c / 262144))
         (String (byte (128 + (c / 4096) mod 64))
         (String (byte (128 + (c / 64) mod 64))
         (String (byte (128 + c mod 64)) EmptyString))))
  else None.

Fixpoint encode (s : str) : option string :=
  match s with
  | [] => Some EmptyString
  | c :: rest =>
      match encode_char c, encode rest with
      | Some bs, Some bs' => Some (bs ++ bs')%string
      | _, _ => None
      end
  end.

(** The payload of a continuation byte [10xxxxxx]. *)
Definition continuation (b : ascii) : option N :=
  let n := N_of_ascii b in
  if (128 <=? n)%N && (n <? 192)%N then Some (n - 128)%N else None.

Definition push (c : char) (rest : option str) : option str :=
  match rest with
  | Some s => Some (c :: s)
  | None => None
  end.

(** Strict decoding; [None] stands for the [UnicodeDecodeError]: a stray
    continuation byte, a sequence cut short, an overlong form, a surrogate
    or a value above U+10FFFF. *)
Fixpoint decode (bs : string) : option str :=
  match bs with
  | EmptyString => Some []
  | String b0 r0 =>
      let n0 := N_of_ascii b0 in
      if (n0 <? 128)%N then push n0 (decode r0)
      else if (n0 <? 194)%N then None
      else if (n0 <? 224)%N then
        match r0 with
        | String b1 r1 =>
            match continuation b1 with
            | Some x1 => push ((n0 - 192) * 64 + x1)%N (decode r1)
            | None => None
            end
        | _ => None
        end
      else if (n0 <? 240)%N then
        match r0 with
        | String b1 (String b2 r2) =>
            match continuation b1, continuation b2 with
            | Some x1, Some x2 =>
                let c := ((n0 - 224) * 4096 + x1 * 64 + x2)%N in
                if (c <? 2048)%N || is_surrogate c then None
                else push c (decode r2)
            | _, _ => None
            end
        | _ => None
        end
      else if (n0 <? 245)%N then
        match r0 with
        | String b1 (String b2 (String b3 r3)) =>
            match continuation b1, continuation b2, continuation b3 with
            | Some x1, Some x2, Some x3 =>
                let c := ((n0 - 240) * 262144 + x1 * 4096 + x2 * 64 + x3)%N in
                if (c <? 65536)%N || (1114111 <? c)%N then None
                else push c (decode r3)
            | _, _, _ => None
            end
        | _ => None
        end
      else None
  end.

End Utf8.

(** What [recv(n).decode('utf-8')] makes of the bytes the read returned. *)
Definition decoded (got : string) : received :=
  match Utf8.decode got with
  | Some text => Received text
  | None => RecvFailed
  end.

(** The world [w] with the bytes [got] returned by the read. *)
Definition arriving (got : string) (w : world) : world :=
  mkWorld (decoded got) (sock_out w) (sock_closed w)
          (log_file w) (log_writable w) (clock w).

(** ** [test.py]: the test client *)

Module TestClient.
Section WithUnicode.
Context {U : UnicodeData}.

(** The client's side of one connection: whether [socket()] and [connect]
    succeed, whether [sendall] does, what [recv(1024)] returns ([None] when
    it raises), what was sent, and whether the socket was closed. *)
Record client := mkClient {
  connects : bool;
  sends : bool;
  reads : option string;
  sent : list string;
  closed : bool
}.

(** [test_tcp_server]: the response, or [None] after any exception.  The
    socket is closed on the way to [return response] only. *)
Definition test_tcp_server (message : str) (c : client) : option str * client :=
  if connects c then
    match Utf8.encode message with
    | Some bs =>
        if sends c then
          let c' := mkClient (connects c) (sends c) (reads c)
                      (sent c ++ [bs]) (closed c) in
          match reads c with
          | Some got =>
              match Utf8.decode got with
              | Some text =>
                  (Some (PyStr.strip text),
                   mkClient (connects c) (sends c) (reads c)
                     (sent c ++ [bs]) true)
              | None => (None, c')
              end
          | None => (None, c')
          end
        else (None, c)
    | None => (None, c)
    end
  else (None, c).

End WithUnicode.
End TestClient.

(** ** [start]: binding, the accept loop and shutdown

    The environment is given as what the calls return: how the set-up ends,
    and what each [accept] in turn yields.  A list of accepts that runs out
    leaves the server blocked in [accept].  Starting a thread and
    submitting to the pool are taken to succeed. *)

Inductive raised := KeyboardInterrupt | OtherException.

Inductive setup :=
| Listening                      (* socket, setsockopt, bind and listen went through *)
| NoSocket (e : raised)          (* [socket.socket] raised *)
| NotListening (e : raised).     (* the socket exists; setsockopt, bind or listen raised *)

Inductive accepted (Conn : Type) :=
| Accepted (c : Conn)
| AcceptRaised (e : raised).
Arguments Accepted {Conn} c.
Arguments AcceptRaised {Conn} e.

Inductive event (Conn : Type) :=
| ThreadStarted (c : Conn)       (* [threading.Thread(target=handle_client, ...).start()] *)
| Submitted (c : Conn)           (* [pool.submit(handle_client, ...)] *)
| PoolShutDown                   (* [pool.shutdown(wait=True)] *)
| ServerSocketClosed.            (* [server_socket.close()] *)
Arguments ThreadStarted {Conn} c.
Arguments Submitted {Conn} c.
Arguments PoolShutDown {Conn}.
Arguments ServerSocketClosed {Conn}.

(** The connections handed to a thread or to the pool, in order. *)
Fixpoint dispatched {Conn : Type} (events : list (event Conn)) : list Conn :=
  match events with
  | [] => []
  | ThreadStarted c :: rest => c :: dispatched rest
  | Submitted c :: rest => c :: dispatched rest
  | _ :: rest => dispatched rest
  end.

(** [tcp_server.py]: one daemon thread per connection. *)
Module TCPServerStart.
Section Loop.
Variable Conn : Type.

(** The [while True] loop and, once it is left, the [finally] clause.  The
    boolean tells whether [start] has returned. *)
Fixpoint accept_loop (accepts : list (accepted Conn)) : list (event Conn) * bool :=
  match accepts with
  | [] => ([], false)
  | Accepted c :: rest =>
      let (events, returned) := accept_loop rest in
      (ThreadStarted c :: events, returned)
  | AcceptRaised _ :: _ => ([ServerSocketClosed], true)
  end.

Definition start (s : setup) (accepts : list (accepted Conn))
  : list (event Conn) * bool :=
  match s with
  | Listening => accept_loop accepts
  | NoSocket _ => ([], true)
  | NotListening _ => ([ServerSocketClosed], true)
  end.

End Loop.
End TCPServerStart.

(** [tcp_server_V2.py]: a thread pool, shut down before the socket is
    closed. *)
Module TCPServerEnhancedStart.
Section Loop.
Variable Conn : Type.

Definition equals : str := repeat 61%N 80.

(** The text [_initialize_log_file] writes into a new file. *)
Definition header : str :=
  (equals ++ [10%N]) ++
  (str_of "REGISTRO DE MENSAJES TCP - SERVIDOR DE CONTEO DE VOCALES" ++ [10%N]) ++
  (equals ++ [10%N; 10%N]).

(** [_initialize_log_file], on the file at the log path: [None] when there
    is none, else its text.  [creatable] tells whether
    [open(log_file, 'w')] succeeds; the result [None] stands for its
    exception, which nothing catches. *)
Definition _initialize_log_file (creatable : bool) (file : option str)
  : option (option str) :=
  match file with
  | None => if creatable then Some (Some header) else None
  | Some text => Some (Some text)
  end.

Fixpoint accept_loop (accepts : list (accepted Conn)) : list (event Conn) * bool :=
  match accepts with
  | [] => ([], false)
  | Accepted c :: rest =>
      let (events, returned) := accept_loop rest in
      (Submitted c :: events, returned)
  | AcceptRaised _ :: _ => ([PoolShutDown; ServerSocketClosed], true)
  end.

Definition start (s : setup) (accepts : list (accepted Conn))
  : list (event Conn) * bool :=
  match s with
  | Listening => accept_loop accepts
  | NoSocket _ => ([PoolShutDown], true)
  | NotListening _ => ([PoolShutDown; ServerSocketClosed], true)
  end.

End Loop.
End TCPServerEnhancedStart.

(** ** A pool of one worker

    [ThreadPoolExecutor(max_workers=1)] runs the submitted handlers one at
    a time, in the order they were submitted, each on its own connection
    and all on the same log file. *)

(** One connection as its handler meets it: what the read yields, the clock
    when the message is logged, and whether the log file can be opened
    then. *)
Record arrival := mkArrival {
  payload : received;
  stamp : str;
  disk_ok : bool
}.

Module OneWorker.
Section WithPlatform.
Context {U : UnicodeData} {F : FloatPow}.

Definition handle (a : arrival) (log : str) : world :=
  run TCPServerEnhanced.handle_client
    (mkWorld (payload a) [] false log (disk_ok a) (stamp a)).

(** The lines sent on each connection, and the log file at the end. *)
Fixpoint serve (arrivals : list arrival) (log : str) : list (list string) * str :=
  match arrivals with
  | [] => ([], log)
  | a :: rest =>
      let w := handle a log in
      let (replies, log') := serve rest (log_file w) in
      (sock_out w :: replies, log')
  end.

(** A server built and started as in the script's last lines, with a
    pool of one worker, until [start] returns: [_initialize_log_file] in
    the constructor, the accept loop, and the handlers of the submitted
    connections, all finished when [pool.shutdown(wait=True)] returns.
    The result is what was sent on each connection and the log file at the
    end; [None] when the constructor raised. *)
Definition session (creatable : bool) (file : option str) (s : setup)
    (accepts : list (accepted arrival))
  : option (list (list string) * option str) :=
  match TCPServerEnhancedStart._initialize_log_file creatable file with
  | Some (Some text) =>
      let (replies, log) :=
        serve (dispatched (fst (TCPServerEnhancedStart.start arrival s accepts)))
          text in
      Some (replies, Some log)
  | Some None => None
  | None => None
  end.

End WithPlatform.
End OneWorker.

(** The bytes of the decimal digits. *)
Definition is_digit (a : ascii) : Prop := (48 <= N_of_ascii a <= 57)%N.


(** ** The handlers on a connection that can fail

    In the [world] above the text read is given whole, [sendall] delivers
    and [write] writes.  Here the handlers are followed once more with
    what those calls do on a real connection: [recv(n)] returns the first
    [n] of the bytes that have arrived, or raises; the bytes may not be
    UTF-8; any [sendall] may raise; the log file may not open, and the disk
    may take only part of what is written. *)

(** One call of [sendall], as it ended. *)
Inductive sending :=
| Sent (line : string)
| SendRaised (line : string).

Module Wire.

Record world := mkWorld {
  arrived : option string;  (* the bytes [recv] has to give; [None]: it raises *)
  send_faults : list bool;  (* for each [sendall] to come, whether it raises;
                               when none is left, it does not *)
  calls : list sending;     (* the calls of [sendall], oldest first *)
  closed : bool;
  file : str;               (* the text of the log file *)
  openable : bool;          (* whether [open(log_file, 'a')] succeeds *)
  room : option nat;        (* how many characters the disk still takes;
                               [None]: as many as are written *)
  now : str                 (* [datetime.now().strftime(...)] *)
}.

(** [client_socket.recv(bufsize)] *)
Definition recv (bufsize : nat) : ST world string :=
  fun w =>
    match arrived w with
    | Some got => (Normal (substring 0 bufsize got), w)
    | None => (Raised, w)
    end.

(** [bytes.decode('utf-8')] *)
Definition decode (got : string) : ST world str :=
  match Utf8.decode got with
  | Some text => ret text
  | None => raise
  end.

Definition sendall (line : string) : ST world unit :=
  fun w =>
    match send_faults w with
    | true :: later =>
        (Raised,
         mkWorld (arrived w) later (calls w ++ [SendRaised line]) (closed w)
                 (file w) (openable w) (room w) (now w))
    | _ :: later =>
        (Normal tt,
         mkWorld (arrived w) later (calls w ++ [Sent line]) (closed w)
                 (file w) (openable w) (room w) (now w))
    | [] =>
        (Normal tt,
         mkWorld (arrived w) [] (calls w ++ [Sent line]) (closed w)
                 (file w) (openable w) (room w) (now w))
    end.

(** [client_socket.close()], which is taken not to raise. *)
Definition close : ST world unit :=
  fun w =>
    (Normal tt,
     mkWorld (arrived w) (send_faults w) (calls w) true
             (file w) (openable w) (room w) (now w)).

Definition strftime_now : ST world str := fun w => (Normal (now w), w).

(** [open(log_file, 'a', encoding='utf-8')] *)
Definition open_append : ST world unit :=
  fun w => if openable w then (Normal tt, w) else (Raised, w).

(** [f.write(s)].  The file is buffered, so that an error of the disk
    shows when the buffer is flushed, at the latest where the [with] block
    ends: in the file is then the part of the text the disk took, and the
    exception is raised inside the same [try].  Here each [write] stores
    what there is room for and raises when that is not all. *)
Definition write (s : str) : ST world unit :=
  fun w =>
    match room w with
    | None =>
        (Normal tt,
         mkWorld (arrived w) (send_faults w) (calls w) (closed w)
                 (file w ++ s) (openable w) None (now w))
    | Some k =>
        if (List.length s <=? k)%nat
        then (Normal tt,
              mkWorld (arrived w) (send_faults w) (calls w) (closed w)
                      (file w ++ s) (openable w)
                      (Some (k - List.length s)%nat) (now w))
        else (Raised,
              mkWorld (arrived w) (send_faults w) (calls w) (closed w)
                      (file w ++ firstn k s) (openable w) (Some 0%nat) (now w))
    end.

(** The world [w] with the bytes [got] waiting to be read. *)
Definition arriving (got : string) (w : world) : world :=
  mkWorld (Some got) (send_faults w) (calls w) (closed w)
          (file w) (openable w) (room w) (now w).

(** A fresh connection on which the bytes [got] wait, with the calls of
    [sendall] failing as [faults] says. *)
Definition connection (got : string) (faults : list bool) (log : str)
    (can_open : bool) (space : option nat) : world :=
  mkWorld (Some got) faults [] false log can_open space
          (str_of "2024-05-17 10:30:00").

End Wire.

(** [tcp_server.py] *)
Module TCPServerOnWire.
Section WithUnicode.
Context {U : UnicodeData}.

Definition handle_client : ST Wire.world unit :=
  try_finally
    (try_except
       (got <- Wire.recv 1024 ;;
        raw <- Wire.decode got ;;
        let data := PyStr.strip raw in
        when_ (is_empty data) (Wire.sendall ERR_NO_DATA ;; return_) ;;
        when_ (negb (TCPServer.validate_text data))
          (Wire.sendall TCPServer.ERR_NOT_ALPHA ;; return_) ;;
        let count := TCPServer.count_last_character data in
        Wire.sendall (count_line count))
       (try_except (Wire.sendall ERR_INTERNAL) (ret tt)))
    Wire.close.

End WithUnicode.
End TCPServerOnWire.

(** [tcp_server_V2.py] *)
Module TCPServerEnhancedOnWire.
Section WithPlatform.
Context {U : UnicodeData} {F : FloatPow}.

Definition save_to_log (timestamp message : str) (count : nat)
    (is_prime_result : str) (last_vowel : option str) : ST Wire.world unit :=
  try_except
    (Wire.open_append ;;
     Wire.write (str_of "Fecha: " ++ timestamp ++ TCPServerEnhanced.nl) ;;
     Wire.write (str_of "Mensaje: " ++ message ++ TCPServerEnhanced.nl) ;;
     Wire.write ([218%N] ++ str_of "ltima vocal: " ++
                 TCPServerEnhanced.format_opt last_vowel ++ TCPServerEnhanced.nl) ;;
     Wire.write (str_of "Repeticiones: " ++ str_of (decimal count) ++
                 TCPServerEnhanced.nl) ;;
     Wire.write ([191%N] ++ str_of "Es primo?: " ++ is_prime_result ++
                 TCPServerEnhanced.nl) ;;
     Wire.write (repeat 45%N 80 ++ TCPServerEnhanced.nl ++ TCPServerEnhanced.nl))
    (ret tt).

Definition is_prime (n : Z) : ST Wire.world bool :=
  match TCPServerEnhanced.is_prime n with
  | Some b => ret b
  | None => raise
  end.

Definition handle_client : ST Wire.world unit :=
  try_finally
    (try_except
       (got <- Wire.recv 4096 ;;
        raw <- Wire.decode got ;;
        let data := PyStr.strip raw in
        when_ (is_empty data) (Wire.sendall ERR_NO_DATA ;; return_) ;;
        when_ (negb (TCPServerEnhanced.validate_text data))
          (Wire.sendall TCPServerEnhanced.ERR_NOT_LETTERS ;; return_) ;;
        when_ (is_empty (PyStr.strip data))
          (Wire.sendall TCPServerEnhanced.ERR_BLANK ;; return_) ;;
        let last_vowel := TCPServerEnhanced.find_last_vowel data in
        when_ (TCPServerEnhanced.falsy last_vowel)
          (Wire.sendall TCPServerEnhanced.ERR_NO_VOWEL ;; return_) ;;
        let count := TCPServerEnhanced.count_vowel_occurrences data last_vowel in
        prime <- is_prime (Z.of_nat count) ;;
        let is_prime_result := if prime : bool then str_of "SI" else str_of "NO" in
        timestamp <- Wire.strftime_now ;;
        save_to_log timestamp data count is_prime_result last_vowel ;;
        Wire.sendall (count_line count))
       (try_except (Wire.sendall ERR_INTERNAL) (ret tt)))
    Wire.close.

End WithPlatform.
End TCPServerEnhancedOnWire.

(** What [recv(bufsize).decode('utf-8')] yields on the wire. *)
Definition heard (bufsize : nat) (w : Wire.world) : received :=
  match Wire.arrived w with
  | Some got => decoded (substring 0 bufsize got)
  | None => RecvFailed
  end.

(** What a run on the wire amounts to, from the line and the text of the
    summaries above; the lemmas [handle_client_on_wire] and
    [handle_client_enhanced_on_wire] prove it. *)
Module WireSummary.

(** The internal-error line is the answer of the [except] clause: the
    [try] block then raised before it sent anything. *)
Definition first_line (line : string) : option string :=
  if String.eqb line ERR_INTERNAL then None else Some line.

Definition attempt (line : string) (faults : list bool)
  : list sending * list bool :=
  match faults with
  | true :: later => ([SendRaised line], later)
  | _ :: later => ([Sent line], later)
  | [] => ([Sent line], [])
  end.

(** The calls of [sendall]: the one of the [try] block, if it gets there,
    and the one of the [except] clause, if that is entered. *)
Definition transmit (line : option string) (faults : list bool)
  : list sending * list bool :=
  match line with
  | None => attempt ERR_INTERNAL faults
  | Some l =>
      match faults with
      | true :: later =>
          let (after, rest) := attempt ERR_INTERNAL later in
          (SendRaised l :: after, rest)
      | _ :: later => ([Sent l], later)
      | [] => ([Sent l], [])
      end
  end.

(** What the disk keeps of [text], and the room left. *)
Definition stored (text : str) (space : option nat) : str * option nat :=
  match space with
  | None => (text, None)
  | Some k => (firstn k text, Some (k - List.length text)%nat)
  end.

Definition fits (text : str) (space : option nat) : bool :=
  match space with
  | None => true
  | Some k => (List.length text <=? k)%nat
  end.

(** The world after [text] was written to the log file. *)
Definition logged (text : str) (w : Wire.world) : Wire.world :=
  let (kept, space) := stored text (Wire.room w) in
  Wire.mkWorld (Wire.arrived w) (Wire.send_faults w) (Wire.calls w)
               (Wire.closed w) (Wire.file w ++ kept) (Wire.openable w) space
               (Wire.now w).

(** [write] of each of [chunks] in turn, and then [k]. *)
Definition writes_then (chunks : list str) (k : ST Wire.world unit)
  : ST Wire.world unit :=
  fold_right (fun chunk rest => Wire.write chunk ;; rest) k chunks.

(** The world after a handler whose answer was [line] and that wrote
    [text] to the log file. *)
Definition served (line : string) (text : str) (w : Wire.world) : Wire.world :=
  let (sendings, faults) := transmit (first_line line) (Wire.send_faults w) in
  let (kept, space) := stored text (Wire.room w) in
  Wire.mkWorld (Wire.arrived w) faults (Wire.calls w ++ sendings) true
               (Wire.file w ++ kept) (Wire.openable w) space (Wire.now w).

End WireSummary.

(** [count] copies of the byte [b]. *)
Definition bytes_of (b : ascii) (count : nat) : string :=
  string_of_list_ascii (repeat b count).

(** * Properties *)

(** ** Strings *)

Section StringFacts.
Context {U : UnicodeData}.

Lemma dropwhile_all (p : char -> bool) (ws s : str) :
  forallb p ws = true -> PyStr.dropwhile p (ws ++ s) = PyStr.dropwhile p s.
Proof.
  induction ws as [|c ws IH]; simpl; intro H; [reflexivity|].
  apply andb_true_iff in H as [Hc Hws]. rewrite Hc. auto.
Qed.

Lemma dropwhile_all_nil (p : char -> bool) (ws : str) :
  forallb p ws = true -> PyStr.dropwhile p ws = [].
Proof.
  intro H. rewrite <- (app_nil_r ws). now rewrite dropwhile_all.
Qed.

Lemma dropwhile_app (p : char -> bool) (s t : str) :
  PyStr.dropwhile p (s ++ t) =
  if is_empty (PyStr.dropwhile p s) then PyStr.dropwhile p t
  else PyStr.dropwhile p s ++ t.
Proof.
  induction s as [|c s IH]; simpl; [reflexivity|].
  destruct (p c); [exact IH | reflexivity].
Qed.

Lemma dropwhile_head (p : char -> bool) (s : str) :
  PyStr.dropwhile p s = [] \/
  exists c t, PyStr.dropwhile p s = c :: t /\ p c = false.
Proof.
  induction s as [|c s IH]; simpl; [now left|].
  destruct (p c) eqn:E; [exact IH|]. right. now exists c, s.
Qed.

Lemma dropwhile_nil_all (p : char -> bool) (s : str) :
  PyStr.dropwhile p s = [] -> forallb p s = true.
Proof.
  induction s as [|c s IH]; simpl; [reflexivity|].
  destruct (p c); [exact IH | discriminate].
Qed.

Lemma dropwhile_incl (p : char -> bool) (s : str) (c : char) :
  In c (PyStr.dropwhile p s) -> In c s.
Proof.
  induction s as [|d s IH]; simpl; [tauto|].
  destruct (p d); simpl; tauto.
Qed.

Lemma dropwhile_length (p : char -> bool) (s : str) :
  (List.length (PyStr.dropwhile p s) <= List.length s)%nat.
Proof.
  induction s as [|d s IH]; simpl; [lia|].
  destruct (p d); simpl; lia.
Qed.

Lemma dropwhile_ext (p q : char -> bool) (s : str) :
  (forall c, In c s -> p c = q c) ->
  PyStr.dropwhile p s = PyStr.dropwhile q s.
Proof.
  induction s as [|d s IH]; simpl; intro H; [reflexivity|].
  rewrite <- (H d) by now left.
  destruct (p d); [apply IH; auto | reflexivity].
Qed.

(** Stripping on the right keeps a first character that is not white
    space. *)
Lemma rstrip_keeps_head (c : char) (t : str) :
  isspace_char c = false -> exists t', PyStr.rstrip (c :: t) = c :: t'.
Proof.
  intro Hc. unfold PyStr.rstrip. simpl rev.
  rewrite dropwhile_app.
  destruct (is_empty (PyStr.dropwhile isspace_char (rev t))).
  - simpl. rewrite Hc. now exists [].
  - rewrite rev_app_distr. simpl. eauto.
Qed.

Lemma rstrip_fixed (s : str) (d : char) :
  isspace_char d = false -> PyStr.rstrip (s ++ [d]) = s ++ [d].
Proof.
  intro Hd. unfold PyStr.rstrip. rewrite rev_app_distr. simpl.
  rewrite Hd. simpl. now rewrite rev_involutive.
Qed.

Lemma rstrip_last (s : str) :
  PyStr.rstrip s = [] \/
  exists t d, PyStr.rstrip s = t ++ [d] /\ isspace_char d = false.
Proof.
  unfold PyStr.rstrip.
  destruct (dropwhile_head isspace_char (rev s)) as [E | (c & t & E & Hc)];
    rewrite E; [now left|].
  right. exists (rev t), c. simpl. auto.
Qed.

(** A stripped string is empty, or starts and ends with a character that
    is not white space. *)
Lemma strip_shape (s : str) :
  PyStr.strip s = [] \/
  exists c t u d,
    PyStr.strip s = c :: t /\ isspace_char c = false /\
    PyStr.strip s = u ++ [d] /\ isspace_char d = false.
Proof.
  unfold PyStr.strip, PyStr.lstrip.
  destruct (dropwhile_head isspace_char s) as [E | (c & t & E & Hc)]; rewrite E.
  - now left.
  - right. destruct (rstrip_keeps_head c t Hc) as [t' Ht'].
    destruct (rstrip_last (c :: t)) as [E' | (u & d & E' & Hd)].
    + rewrite E' in Ht'. discriminate.
    + exists c, t', u, d. auto.
Qed.

Lemma strip_idempotent (s : str) :
  PyStr.strip (PyStr.strip s) = PyStr.strip s.
Proof.
  destruct (strip_shape s) as [E | (c & t & u & d & E1 & Hc & E2 & Hd)].
  - rewrite E. reflexivity.
  - unfold PyStr.strip at 1. unfold PyStr.lstrip.
    rewrite E1 at 1. simpl. rewrite Hc. rewrite <- E1, E2.
    now apply rstrip_fixed.
Qed.

(** White space put before or after a text does not survive [strip]. *)
Lemma strip_padding (ws ws' s : str) :
  forallb isspace_char ws = true -> forallb isspace_char ws' = true ->
  PyStr.strip (ws ++ s ++ ws') = PyStr.strip s.
Proof.
  intros Hws Hws'. unfold PyStr.strip, PyStr.lstrip.
  rewrite dropwhile_all by assumption.
  rewrite dropwhile_app.
  destruct (PyStr.dropwhile isspace_char s) as [|c t] eqn:E; cbn [is_empty].
  - now rewrite dropwhile_all_nil.
  - unfold PyStr.rstrip. rewrite rev_app_distr.
    rewrite dropwhile_all; [reflexivity|].
    rewrite forallb_forall in *. intros x Hx. apply Hws'.
    now apply in_rev.
Qed.

Lemma strip_incl (s : str) (c : char) : In c (PyStr.strip s) -> In c s.
Proof.
  unfold PyStr.strip, PyStr.rstrip, PyStr.lstrip. intro H.
  apply in_rev in H. apply dropwhile_incl in H. apply in_rev in H.
  now apply dropwhile_incl in H.
Qed.

Lemma strip_length (s : str) :
  (List.length (PyStr.strip s) <= List.length s)%nat.
Proof.
  unfold PyStr.strip, PyStr.rstrip, PyStr.lstrip.
  rewrite length_rev.
  etransitivity; [apply dropwhile_length|].
  rewrite length_rev. apply dropwhile_length.
Qed.

End StringFacts.

Section CaseMapping.
Context {U : UnicodeData}.

Lemma lower_from_length (before s : str) :
  (List.length (PyStr.lower_from before s) <= 3 * List.length s)%nat.
Proof.
  revert before. induction s as [|c s IH]; intros seen; simpl; [lia|].
  rewrite length_app. specialize (IH (c :: seen)).
  destruct (c =? capital_sigma)%N.
  - simpl. lia.
  - pose proof (tolower_full_length c). lia.
Qed.

Lemma lower_length (s : str) :
  (List.length (PyStr.lower s) <= 3 * List.length s)%nat.
Proof. apply lower_from_length. Qed.

Lemma lower_from_basic_latin (before s : str) :
  basic_latin s = true -> PyStr.lower_from before s = map ascii_lower s.
Proof.
  revert before. induction s as [|c s IH]; intros seen H; [reflexivity|].
  simpl in H. apply andb_true_iff in H as [Hc Hs].
  apply N.ltb_lt in Hc. simpl.
  replace (c =? capital_sigma)%N with false
    by (symmetry; apply N.eqb_neq; unfold capital_sigma; lia).
  rewrite basic_latin_lower by assumption. simpl. f_equal. auto.
Qed.

Lemma lower_basic_latin (s : str) :
  basic_latin s = true -> PyStr.lower s = map ascii_lower s.
Proof. apply lower_from_basic_latin. Qed.

Lemma lower_char (c : char) :
  c <> capital_sigma -> PyStr.lower [c] = tolower_full c.
Proof.
  intro H. unfold PyStr.lower. simpl.
  apply N.eqb_neq in H. rewrite H. apply app_nil_r.
Qed.

Lemma lower_char_nonempty (c : char) : PyStr.lower [c] <> [].
Proof.
  unfold PyStr.lower. simpl. destruct (c =? capital_sigma)%N.
  - discriminate.
  - rewrite app_nil_r. pose proof (tolower_full_length c) as H.
    destruct (tolower_full c); [simpl in H; lia | discriminate].
Qed.

End CaseMapping.

(** On Basic Latin every character database answers alike. *)
Section BasicLatin.
Context (U V : UnicodeData).

Lemma basic_latin_In (s : str) :
  basic_latin s = true <-> forall c, In c s -> (c < 128)%N.
Proof.
  unfold basic_latin. rewrite forallb_forall.
  split; intros H c Hc; specialize (H c Hc); now apply N.ltb_lt.
Qed.

Lemma ascii_lower_lt (c : char) : (c < 128)%N -> (ascii_lower c < 128)%N.
Proof.
  unfold ascii_lower, ascii_isupper. intro H.
  destruct (N.leb_spec 65 c), (N.leb_spec c 90); simpl; lia.
Qed.

Lemma strip_basic_latin (s : str) :
  basic_latin s = true -> basic_latin (@PyStr.strip U s) = true.
Proof.
  rewrite !basic_latin_In. intros H c Hc. apply H. exact (@strip_incl U s c Hc).
Qed.

Lemma isspace_agree (c : char) :
  (c < 128)%N -> @isspace_char U c = @isspace_char V c.
Proof. intro H. now rewrite !basic_latin_space. Qed.

Lemma isalpha_agree (c : char) :
  (c < 128)%N -> @isalpha_char U c = @isalpha_char V c.
Proof. intro H. now rewrite !basic_latin_alpha. Qed.

Lemma strip_agree (s : str) :
  basic_latin s = true -> @PyStr.strip U s = @PyStr.strip V s.
Proof.
  intro H. rewrite basic_latin_In in H.
  unfold PyStr.strip, PyStr.rstrip, PyStr.lstrip.
  rewrite (dropwhile_ext (@isspace_char U) (@isspace_char V) s)
    by (intros; apply isspace_agree; auto).
  f_equal. apply dropwhile_ext. intros c Hc.
  apply isspace_agree, H. apply in_rev in Hc. eapply dropwhile_incl, Hc.
Qed.

Lemma forallb_agree (p q : char -> bool) (s : str) :
  (forall c, In c s -> p c = q c) -> forallb p s = forallb q s.
Proof.
  induction s as [|c s IH]; simpl; intro H; [reflexivity|].
  rewrite (H c) by now left. f_equal. apply IH. auto.
Qed.

Lemma lower_agree (s : str) :
  basic_latin s = true -> @PyStr.lower U s = @PyStr.lower V s.
Proof. intro H. now rewrite !lower_basic_latin. Qed.

Lemma last_char_lt (s : str) :
  basic_latin s = true -> (last s 0 < 128)%N.
Proof.
  rewrite basic_latin_In. intro H.
  destruct s as [|c s]; [simpl; lia|].
  apply H. rewrite (app_removelast_last 0%N (l := c :: s)) at 2 by discriminate.
  apply in_or_app. right. now left.
Qed.

Lemma count_last_character_agree (s : str) :
  basic_latin s = true ->
  @TCPServer.count_last_character U s = @TCPServer.count_last_character V s.
Proof.
  intro H. unfold TCPServer.count_last_character.
  rewrite (lower_agree s H).
  rewrite (lower_agree [last s 0%N]); [reflexivity|].
  simpl. rewrite andb_true_r. apply N.ltb_lt. now apply last_char_lt.
Qed.

Lemma answer_agree (raw : str) :
  basic_latin raw = true ->
  @Summary.last_character_answer U (Received raw) = @Summary.last_character_answer V (Received raw).
Proof.
  intro H. unfold Summary.last_character_answer. cbv zeta.
  rewrite (strip_agree raw H).
  assert (H' : basic_latin (@PyStr.strip V raw) = true).
  { rewrite <- (strip_agree raw H). now apply strip_basic_latin. }
  rewrite (count_last_character_agree _ H').
  replace (@TCPServer.validate_text U (@PyStr.strip V raw))
    with (@TCPServer.validate_text V (@PyStr.strip V raw)); [reflexivity|].
  unfold TCPServer.validate_text, PyStr.isalpha. f_equal.
  apply forallb_agree. intros c Hc. symmetry. apply isalpha_agree.
  rewrite basic_latin_In in H'. auto.
Qed.

End BasicLatin.

Section BasicLatinEnhanced.
Context (U V : UnicodeData) {F : FloatPow}.

Lemma is_vowel_lt (c : char) :
  TCPServerEnhanced.is_vowel c = true -> (c < 128)%N.
Proof.
  unfold TCPServerEnhanced.is_vowel, TCPServerEnhanced.vowels. simpl.
  repeat match goal with
         | |- context [(c =? ?v)%N] => destruct (N.eqb_spec c v); [subst; lia|]
         end.
  discriminate.
Qed.

Lemma find_last_vowel_agree (s : str) :
  @TCPServerEnhanced.find_last_vowel U s = @TCPServerEnhanced.find_last_vowel V s.
Proof.
  unfold TCPServerEnhanced.find_last_vowel.
  destruct (find TCPServerEnhanced.is_vowel (rev s)) as [c|] eqn:E; [|reflexivity].
  apply find_some in E as [_ Hc]. apply is_vowel_lt in Hc.
  f_equal. apply lower_agree. simpl. rewrite andb_true_r. now apply N.ltb_lt.
Qed.

Lemma find_last_vowel_basic_latin (s v : str) :
  @TCPServerEnhanced.find_last_vowel U s = Some v -> basic_latin v = true.
Proof.
  unfold TCPServerEnhanced.find_last_vowel.
  destruct (find TCPServerEnhanced.is_vowel (rev s)) as [c|] eqn:E; [|discriminate].
  apply find_some in E as [_ Hc]. apply is_vowel_lt in Hc.
  intro H. injection H as <-.
  rewrite lower_basic_latin
    by (simpl; rewrite andb_true_r; now apply N.ltb_lt).
  simpl. rewrite andb_true_r. apply N.ltb_lt. now apply ascii_lower_lt.
Qed.

Lemma count_vowel_occurrences_agree (s : str) (vowel : option str) :
  basic_latin s = true ->
  (forall v, vowel = Some v -> basic_latin v = true) ->
  @TCPServerEnhanced.count_vowel_occurrences U s vowel =
  @TCPServerEnhanced.count_vowel_occurrences V s vowel.
Proof.
  intros Hs Hv. unfold TCPServerEnhanced.count_vowel_occurrences.
  destruct vowel as [v|]; [|reflexivity].
  rewrite (lower_agree U V s Hs), (lower_agree U V v (Hv v eq_refl)).
  reflexivity.
Qed.

Lemma validate_text_agree (s : str) :
  basic_latin s = true ->
  @TCPServerEnhanced.validate_text U s = @TCPServerEnhanced.validate_text V s.
Proof.
  intro H. rewrite basic_latin_In in H.
  apply forallb_agree. intros c Hc.
  now rewrite (isalpha_agree U V), (isspace_agree U V) by auto.
Qed.

Lemma enhanced_answer_agree (raw timestamp : str) (writable : bool) :
  basic_latin raw = true ->
  @Summary.vowel_answer U F (Received raw) timestamp writable =
  @Summary.vowel_answer V F (Received raw) timestamp writable.
Proof.
  intro H. unfold Summary.vowel_answer. cbv zeta.
  rewrite (strip_agree U V raw H).
  assert (H' : basic_latin (@PyStr.strip V raw) = true).
  { rewrite <- (strip_agree U V raw H). now apply strip_basic_latin. }
  rewrite (strip_agree U V _ H'), (validate_text_agree _ H').
  rewrite find_last_vowel_agree.
  rewrite (count_vowel_occurrences_agree _ _ H'); [reflexivity|].
  intros v Hv. rewrite <- find_last_vowel_agree in Hv.
  eapply find_last_vowel_basic_latin, Hv.
Qed.

End BasicLatinEnhanced.

(** ** What a run of a handler amounts to *)

Section Runs.
Context {U : UnicodeData} {F : FloatPow}.

Lemma handle_client_run (w : world) :
  run TCPServer.handle_client w = served (Summary.last_character_answer (sock_in w)) [] w.
Proof.
  unfold run, TCPServer.handle_client, Summary.last_character_answer, served,
    try_finally, try_except, bind, recv_decode.
  destruct (sock_in w) as [raw|] eqn:E; cbv zeta; simpl;
    rewrite ?E, ?app_nil_r; [|reflexivity].
  destruct (is_empty (PyStr.strip raw)); simpl; rewrite ?E; [reflexivity|].
  destruct (TCPServer.validate_text (PyStr.strip raw)); simpl; rewrite ?E;
    reflexivity.
Qed.

Lemma save_to_log_run (timestamp message : str) (count : nat)
    (is_prime_result : str) (last_vowel : option str) (w : world) :
  TCPServerEnhanced.save_to_log timestamp message count is_prime_result
    last_vowel w =
  (Normal tt,
   mkWorld (sock_in w) (sock_out w) (sock_closed w)
     (log_file w ++
      (if log_writable w
       then Summary.log_record timestamp message count
              is_prime_result last_vowel
       else []))
     (log_writable w) (clock w)).
Proof.
  destruct w as [rx out closed log writable now].
  unfold TCPServerEnhanced.save_to_log, Summary.log_record,
    try_except, bind, open_append, write, ret.
  cbn [sock_in sock_out sock_closed log_file log_writable clock].
  destruct writable.
  - cbn [sock_in sock_out sock_closed log_file log_writable clock].
    f_equal. f_equal. repeat rewrite <- app_assoc. reflexivity.
  - now rewrite app_nil_r.
Qed.

Lemma handle_client_enhanced_run (w : world) :
  let a := Summary.vowel_answer (sock_in w) (clock w) (log_writable w) in
  run TCPServerEnhanced.handle_client w = served (fst a) (snd a) w.
Proof.
  unfold run, TCPServerEnhanced.handle_client, Summary.vowel_answer, served,
    try_finally, try_except, bind, recv_decode.
  destruct (sock_in w) as [raw|] eqn:E; cbv zeta; simpl;
    rewrite ?E, ?app_nil_r; [|reflexivity].
  destruct (is_empty (PyStr.strip raw)); simpl; rewrite ?E, ?app_nil_r;
    [reflexivity|].
  destruct (TCPServerEnhanced.validate_text (PyStr.strip raw)); simpl;
    rewrite ?E, ?app_nil_r; [|reflexivity].
  destruct (is_empty (PyStr.strip (PyStr.strip raw))); simpl;
    rewrite ?E, ?app_nil_r; [reflexivity|].
  destruct (TCPServerEnhanced.falsy _); simpl; rewrite ?E, ?app_nil_r;
    [reflexivity|].
  destruct (TCPServerEnhanced.is_prime _) as [prime|];
    cbn -[TCPServerEnhanced.save_to_log];
    rewrite ?E, ?app_nil_r; [|reflexivity].
  rewrite save_to_log_run.
  cbn [sock_in sock_out sock_closed log_file log_writable clock fst snd].
  rewrite E. unfold Summary.verdict.
  destruct prime, (log_writable w); reflexivity.
Qed.

End Runs.

(** ** Trial division *)

Section Primality.
Context {F : FloatPow}.
Open Scope Z_scope.

Lemma range_from_In (fuel : nat) (a stop step i : Z) :
  0 < step -> stop - a <= Z.of_nat fuel ->
  In i (TCPServerEnhanced.range_from fuel a stop step) <->
  exists k, 0 <= k /\ i = a + k * step /\ i < stop.
Proof.
  intro Hstep. revert a.
  induction fuel as [|fuel IH]; intros a Hfuel.
  - simpl. split; [tauto|]. intros (k & Hk & -> & Hlt). nia.
  - cbn [TCPServerEnhanced.range_from]. destruct (Z.ltb_spec a stop).
    + simpl. rewrite IH by lia. split.
      * intros [<- | (k & Hk & -> & Hlt)].
        -- exists 0. lia.
        -- exists (k + 1). nia.
      * intros (k & Hk & -> & Hlt). destruct (Z.eq_dec k 0) as [-> | Hne].
        -- left. lia.
        -- right. exists (k - 1). nia.
    + split; [simpl; tauto|]. intros (k & Hk & -> & Hlt). nia.
Qed.

(** [range(3, root + 1, 2)] lists the odd numbers from 3 to [root]. *)
Lemma odd_candidates (root i : Z) :
  In i (TCPServerEnhanced.range 3 (root + 1) 2) <->
  3 <= i <= root /\ Z.odd i = true.
Proof.
  unfold TCPServerEnhanced.range. rewrite range_from_In by lia. split.
  - intros (k & Hk & -> & Hlt). split; [lia|].
    replace (3 + k * 2) with (1 + 2 * (k + 1)) by lia.
    now rewrite Z.odd_add_mul_2.
  - intros [Hi Hodd]. apply Z.odd_spec in Hodd as [m ->].
    exists (m - 1). lia.
Qed.

Lemma trial_division_true (n : Z) (candidates : list Z) :
  TCPServerEnhanced.trial_division n candidates = true <->
  forall i, In i candidates -> n mod i <> 0.
Proof.
  induction candidates as [|i rest IH]; simpl.
  - split; [intros _ i [] | reflexivity].
  - destruct (Z.eqb_spec (n mod i) 0) as [E | E].
    + split; [discriminate|]. intro H. exfalso. exact (H i (or_introl eq_refl) E).
    + rewrite IH. split.
      * intros H j [<- | Hj]; auto.
      * intros H j Hj. apply H. now right.
Qed.

(** The loop answers [True] exactly when no odd number from 3 up to the
    square root divides [n]. *)
Lemma trial_division_sqrt (n : Z) :
  3 <= n ->
  TCPServerEnhanced.trial_division n
    (TCPServerEnhanced.range 3 (Z.sqrt n + 1) 2) = true <->
  forall d, 3 <= d -> d * d <= n -> Z.odd d = true -> ~ (d | n).
Proof.
  intro Hn. rewrite trial_division_true. split.
  - intros H d Hd Hsq Hodd Hdiv.
    apply (H d).
    + apply odd_candidates. split; [|assumption].
      split; [lia|]. apply Z.sqrt_le_square; lia.
    + apply Z.mod_divide; [lia | assumption].
  - intros H i Hi E. apply odd_candidates in Hi as [[H3 Hle] Hodd].
    apply (H i); try assumption.
    + apply Z.sqrt_le_square; lia.
    + apply Z.mod_divide; [lia | assumption].
Qed.

Lemma no_odd_divisor_prime (n : Z) :
  3 <= n -> Z.odd n = true ->
  (forall d, 3 <= d -> d * d <= n -> Z.odd d = true -> ~ (d | n)) ->
  Z.prime n.
Proof.
  intros Hn Hodd H. split; [lia|].
  intros g Hg [q Hq].
  assert (Hq2 : 2 <= q) by nia.
  assert (Hparity : Z.odd q = true /\ Z.odd g = true).
  { rewrite Hq, Z.odd_mul in Hodd. now apply andb_true_iff in Hodd. }
  destruct Hparity as [Hoq Hog].
  destruct (Z.le_gt_cases g q).
  - apply (H g); try assumption.
    + destruct (Z.eq_dec g 2) as [E|]; [rewrite E in Hog; discriminate | lia].
    + nia.
    + exists q. exact Hq.
  - apply (H q); try assumption.
    + destruct (Z.eq_dec q 2) as [E|]; [rewrite E in Hoq; discriminate | lia].
    + nia.
    + exists g. lia.
Qed.

Lemma prime_no_small_divisor (n d : Z) :
  Z.prime n -> 3 <= d -> d * d <= n -> ~ (d | n).
Proof.
  intros [Hn Hp] Hd Hsq. apply Hp. nia.
Qed.

Lemma int_sqrt_float_exact (n : Z) :
  n < float_exact_bound ->
  TCPServerEnhanced.int_sqrt_float n = Some (Z.sqrt n).
Proof.
  intro H. unfold TCPServerEnhanced.int_sqrt_float.
  destruct (Z.ltb_spec n float_exact_bound); [reflexivity | lia].
Qed.

Lemma is_prime_below_2 (n : Z) :
  n < 2 -> TCPServerEnhanced.is_prime n = Some false.
Proof.
  intro H. unfold TCPServerEnhanced.is_prime.
  destruct (Z.ltb_spec n 2); [reflexivity | lia].
Qed.

(** No floating-point value is involved for an even number. *)
Lemma is_prime_even (n : Z) :
  2 < n -> Z.even n = true -> TCPServerEnhanced.is_prime n = Some false.
Proof.
  intros H He. unfold TCPServerEnhanced.is_prime.
  destruct (Z.ltb_spec n 2); [lia|].
  destruct (Z.eqb_spec n 2); [lia|].
  rewrite Zmod_even, He. reflexivity.
Qed.

Lemma is_prime_odd (n : Z) :
  2 < n -> n < float_exact_bound -> Z.odd n = true ->
  TCPServerEnhanced.is_prime n =
  Some (TCPServerEnhanced.trial_division n
          (TCPServerEnhanced.range 3 (Z.sqrt n + 1) 2)).
Proof.
  intros H Hb Ho. unfold TCPServerEnhanced.is_prime.
  destruct (Z.ltb_spec n 2); [lia|].
  destruct (Z.eqb_spec n 2); [lia|].
  rewrite Zmod_odd, Ho. simpl.
  now rewrite int_sqrt_float_exact.
Qed.

Lemma is_prime_correct (n : Z) :
  0 <= n < float_exact_bound ->
  exists b, TCPServerEnhanced.is_prime n = Some b /\ (b = true <-> Z.prime n).
Proof.
  intros [H0 Hb].
  destruct (Z.lt_ge_cases n 2) as [Hlt | Hge].
  { exists false. split; [now apply is_prime_below_2|].
    split; [discriminate|]. intros [Hp _]. lia. }
  destruct (Z.eq_dec n 2) as [-> | Hne].
  { exists true. split; [reflexivity|].
    split; [intros _; apply Z.prime_2 | reflexivity]. }
  destruct (Z.even n) eqn:He.
  { exists false. split; [apply is_prime_even; [lia | assumption]|].
    split; [discriminate|]. intros [_ Hp]. exfalso.
    apply Z.even_spec in He as [m Hm].
    apply (Hp 2); [lia|]. exists m. lia. }
  assert (Ho : Z.odd n = true) by (rewrite <- Z.negb_even, He; reflexivity).
  eexists. split; [apply is_prime_odd; [lia | assumption | assumption]|].
  rewrite trial_division_sqrt by lia. split.
  - apply no_odd_divisor_prime; [lia | assumption].
  - intros Hp d Hd Hsq _. now apply prime_no_small_divisor.
Qed.

End Primality.

(** ** The vowel search *)

Section VowelSearch.
Context {U : UnicodeData}.

Lemma is_vowel_In (c : char) :
  TCPServerEnhanced.is_vowel c = true <-> In c TCPServerEnhanced.vowels.
Proof.
  unfold TCPServerEnhanced.is_vowel. rewrite existsb_exists. split.
  - intros (v & Hv & E). apply N.eqb_eq in E. now subst.
  - intro H. exists c. split; [assumption | apply N.eqb_refl].
Qed.

Lemma find_last_vowel_None (text : str) :
  TCPServerEnhanced.find_last_vowel text = None <->
  forall c, In c text -> ~ In c TCPServerEnhanced.vowels.
Proof.
  unfold TCPServerEnhanced.find_last_vowel.
  destruct (find TCPServerEnhanced.is_vowel (rev text)) as [c|] eqn:E.
  - split; [discriminate|]. intro H. exfalso.
    apply find_some in E as [Hin Hv].
    apply (H c); [now apply in_rev | now apply is_vowel_In].
  - split; [|reflexivity]. intros _ c Hin Hv.
    apply in_rev in Hin. apply is_vowel_In in Hv.
    pose proof (find_none _ _ E c Hin) as Hc. congruence.
Qed.

(** What [find_last_vowel] returns is never the empty string. *)
Lemma falsy_find_last_vowel (text : str) :
  TCPServerEnhanced.falsy (TCPServerEnhanced.find_last_vowel text) = true <->
  TCPServerEnhanced.find_last_vowel text = None.
Proof.
  unfold TCPServerEnhanced.find_last_vowel.
  destruct (find TCPServerEnhanced.is_vowel (rev text)) as [c|]; simpl.
  - pose proof (lower_char_nonempty c) as H.
    destruct (PyStr.lower [c]); [contradiction|].
    simpl. split; discriminate.
  - tauto.
Qed.

Lemma count_vowel_occurrences_le (text : str) (vowel : option str) :
  (TCPServerEnhanced.count_vowel_occurrences text vowel
   <= 3 * List.length text)%nat.
Proof.
  unfold TCPServerEnhanced.count_vowel_occurrences.
  destruct vowel as [v|]; [|lia].
  destruct (is_empty v); [lia|].
  etransitivity; [apply filter_length_le | apply lower_length].
Qed.

End VowelSearch.

(** ** The effect of the vowel server on the log *)

Section LogEffect.
Context {U : UnicodeData} {F : FloatPow}.

Lemma analysed_message_effect (w : world) (raw : str) :
     sock_in w = Received raw -> (Z.of_nat (List.length raw) <= 4096)%Z ->
     PyStr.strip raw <> [] ->
     TCPServerEnhanced.validate_text (PyStr.strip raw) = true ->
     (exists c, In c (PyStr.strip raw) /\ In c TCPServerEnhanced.vowels) ->
     exists prime,
       TCPServerEnhanced.is_prime
         (Z.of_nat (TCPServerEnhanced.count_vowel_occurrences (PyStr.strip raw)
                      (TCPServerEnhanced.find_last_vowel (PyStr.strip raw))))
       = Some prime /\
       sock_out (run TCPServerEnhanced.handle_client w)
       = sock_out w ++
         [count_line (TCPServerEnhanced.count_vowel_occurrences (PyStr.strip raw)
                        (TCPServerEnhanced.find_last_vowel (PyStr.strip raw)))] /\
       log_file (run TCPServerEnhanced.handle_client w)
       = log_file w ++
         (if log_writable w
          then Summary.log_record (clock w) (PyStr.strip raw)
                 (TCPServerEnhanced.count_vowel_occurrences (PyStr.strip raw)
                    (TCPServerEnhanced.find_last_vowel (PyStr.strip raw)))
                 (Summary.verdict prime)
                 (TCPServerEnhanced.find_last_vowel (PyStr.strip raw))
          else []).
Proof.
  rewrite handle_client_enhanced_run. cbv zeta.
  unfold served. cbn [sock_out log_file].
  intros Hin Hlen Hne Hvalid (c & Hc & Hv).
  rewrite Hin. unfold Summary.vowel_answer. cbv zeta.
  rewrite strip_idempotent.
  destruct (PyStr.strip raw) as [|d data] eqn:Hdata; [contradiction|].
  cbn [is_empty]. rewrite Hvalid. cbn [negb].
  destruct (TCPServerEnhanced.falsy
              (TCPServerEnhanced.find_last_vowel (d :: data))) eqn:Hf.
  { exfalso. apply falsy_find_last_vowel in Hf.
    rewrite find_last_vowel_None in Hf. exact (Hf c Hc Hv). }
  destruct (is_prime_correct
              (Z.of_nat (TCPServerEnhanced.count_vowel_occurrences (d :: data)
                 (TCPServerEnhanced.find_last_vowel (d :: data)))))
    as (prime & Hp & _).
  { pose proof (count_vowel_occurrences_le (d :: data)
                  (TCPServerEnhanced.find_last_vowel (d :: data))) as Hle.
    pose proof (strip_length raw) as Hs. rewrite Hdata in Hs.
    unfold float_exact_bound. split; [lia|].
    apply Z.le_lt_trans with 12288%Z; [lia | reflexivity]. }
  exists prime. rewrite Hp. cbn [fst snd]. auto.
Qed.

Lemma receive_failure_effect (w : world) :
  sock_in w = RecvFailed ->
  log_file (run TCPServerEnhanced.handle_client w) = log_file w.
Proof.
  intro Hin. rewrite handle_client_enhanced_run. cbv zeta.
  unfold served. cbn [log_file]. rewrite Hin. cbn. apply app_nil_r.
Qed.

Lemma failed_message_effect (w : world) (raw : str) :
     sock_in w = Received raw ->
     PyStr.strip raw = [] \/
     TCPServerEnhanced.validate_text (PyStr.strip raw) = false \/
     (forall c, In c (PyStr.strip raw) -> ~ In c TCPServerEnhanced.vowels) \/
     TCPServerEnhanced.is_prime
       (Z.of_nat (TCPServerEnhanced.count_vowel_occurrences (PyStr.strip raw)
                    (TCPServerEnhanced.find_last_vowel (PyStr.strip raw))))
     = None ->
     log_file (run TCPServerEnhanced.handle_client w) = log_file w.
Proof.
  rewrite handle_client_enhanced_run. cbv zeta.
  unfold served. cbn [log_file].
  intros Hin Hcase. rewrite Hin.
  unfold Summary.vowel_answer. cbv zeta. rewrite strip_idempotent.
  destruct (PyStr.strip raw) as [|d data] eqn:Hdata;
    [cbn; apply app_nil_r|].
  cbn [is_empty].
  destruct (TCPServerEnhanced.validate_text (d :: data)) eqn:Hvalid;
    [|cbn; apply app_nil_r].
  cbn [negb].
  destruct (TCPServerEnhanced.falsy
              (TCPServerEnhanced.find_last_vowel (d :: data))) eqn:Hf;
    [cbn; apply app_nil_r|].
  destruct Hcase as [H | [H | [H | H]]].
  - discriminate.
  - discriminate.
  - apply find_last_vowel_None in H. apply falsy_find_last_vowel in H.
    congruence.
  - rewrite H. cbn. apply app_nil_r.
Qed.

End LogEffect.

(** ** The claims of the specification *)

(** C1 (the code departs from it).  The claim: for a non-empty text of
    letters the last-character server answers the number of occurrences of
    the lower-cased last character in the lower-cased text, a number that is
    at least one.  In Unicode U+0130 (capital I with dot above) is a letter,
    is not white space, and its lower case is the two code points U+0069
    U+0307.  [text[-1].lower()] is then a string of length two, no single
    character of [text.lower()] equals it, and the one-letter message
    U+0130 passes validation and is answered with the count 0. *)
Theorem dotted_capital_I_counted_zero {U : UnicodeData} (w : world) :
  isalpha_char 304%N = true ->
  isspace_char 304%N = false ->
  tolower_full 304%N = [105%N; 775%N] ->
  TCPServer.validate_text [304%N] = true /\
  TCPServer.count_last_character [304%N] = 0%nat /\
  sock_out (run TCPServer.handle_client (receiving [304%N] w))
  = sock_out w ++ [count_line 0].
Proof.
  intros Halpha Hspace Hlower.
  assert (Hcount : TCPServer.count_last_character [304%N] = 0%nat).
  { unfold TCPServer.count_last_character. cbn [is_empty last].
    rewrite !lower_char by (unfold capital_sigma; lia).
    rewrite Hlower. reflexivity. }
  assert (Hvalid : TCPServer.validate_text [304%N] = true).
  { unfold TCPServer.validate_text, PyStr.isalpha. simpl.
    now rewrite Halpha. }
  assert (Hstrip : PyStr.strip [304%N] = [304%N]).
  { unfold PyStr.strip, PyStr.rstrip, PyStr.lstrip. simpl.
    rewrite Hspace. simpl. now rewrite Hspace. }
  repeat split; try assumption.
  rewrite handle_client_run.
  unfold served, Summary.last_character_answer, receiving.
  cbn [sock_in sock_out]. cbv zeta.
  rewrite Hstrip. cbn [is_empty]. rewrite Hvalid. cbn [negb].
  now rewrite Hcount.
Qed.

Lemma dotted_capital_I_counted_zero_witness :
  @TCPServer.validate_text sample_ucd [304%N] = true /\
  @TCPServer.count_last_character sample_ucd [304%N] = 0%nat /\
  sock_out (run (@TCPServer.handle_client sample_ucd)
              (connection [304%N] [] true))
  = [count_line 0].
Proof.
  apply (@dotted_capital_I_counted_zero sample_ucd (connection [] [] true));
    reflexivity.
Defined.

(** The same defect through the Final_Sigma rule: in the upper-case Greek
    word U+039F U+0394 U+039F U+03A3 the last letter alone lowers to U+03C3
    and inside the word to U+03C2, so the answer is 0 again. *)
Example greek_word_counted_zero :
  @TCPServer.validate_text sample_ucd [927; 916; 927; 931]%N = true /\
  @PyStr.lower sample_ucd [927; 916; 927; 931]%N = [959; 948; 959; 962]%N /\
  @PyStr.lower sample_ucd [931%N] = [963%N] /\
  sock_out (run (@TCPServer.handle_client sample_ucd)
              (connection [927; 916; 927; 931]%N [] true))
  = [count_line 0].
Proof. repeat split; vm_compute; reflexivity. Qed.

(** Where every character lowers to one character whatever its
    neighbours, as the letters of Basic Latin do, the count is the one the
    claim describes and is at least one. *)
Lemma count_last_character_basic_latin {U : UnicodeData} (text : str) :
  text <> [] -> basic_latin text = true ->
  TCPServer.count_last_character text =
  count_occ N.eq_dec (map ascii_lower text) (ascii_lower (last text 0%N)) /\
  (1 <= TCPServer.count_last_character text)%nat.
Proof.
  intros Hne Hbl.
  assert (E : TCPServer.count_last_character text =
              count_occ N.eq_dec (map ascii_lower text)
                (ascii_lower (last text 0%N))).
  { unfold TCPServer.count_last_character.
    destruct text as [|c text]; [contradiction|]. cbn [is_empty].
    rewrite (lower_basic_latin (c :: text) Hbl).
    rewrite (lower_basic_latin [last (c :: text) 0%N])
      by (unfold basic_latin; cbn [forallb]; rewrite andb_true_r;
          apply N.ltb_lt; now apply last_char_lt).
    change (map ascii_lower [last (c :: text) 0%N])
      with [ascii_lower (last (c :: text) 0%N)].
    generalize (ascii_lower (last (c :: text) 0%N)) as t.
    generalize (map ascii_lower (c :: text)) as l.
    intros l t. induction l as [|d l IH]; [reflexivity|].
    cbn [filter count_occ].
    change (str_eqb [d] [t]) with ((d =? t)%N && true). rewrite andb_true_r.
    destruct (N.eq_dec d t) as [E | E].
    - apply N.eqb_eq in E. rewrite E. cbn [List.length]. now rewrite IH.
    - apply N.eqb_neq in E. now rewrite E. }
  split; [exact E|]. rewrite E.
  apply count_occ_In. apply in_map.
  rewrite (app_removelast_last 0%N Hne) at 2.
  apply in_or_app. right. now left.
Qed.

Lemma count_last_character_basic_latin_witness :
  @TCPServer.count_last_character sample_ucd (str_of "Banana") =
  count_occ N.eq_dec (map ascii_lower (str_of "Banana"))
    (ascii_lower (last (str_of "Banana") 0%N)) /\
  (1 <= @TCPServer.count_last_character sample_ucd (str_of "Banana"))%nat.
Proof.
  apply (@count_last_character_basic_latin sample_ucd (str_of "Banana")).
  - discriminate.
  - reflexivity.
Defined.

(** C2 (amended).  The claim has [validate_text] of the vowel server
    reject the empty string and strings of white space.  It does not: it
    only looks at the characters, and answers [True] exactly when each is a
    letter or white space, so also for the empty string and for white
    space alone.  Such payloads never reach it: the handler answers "no
    data" when nothing is left after trimming. *)
Theorem validate_text_letters_and_spaces {U : UnicodeData} {F : FloatPow} :
  (forall text,
     TCPServerEnhanced.validate_text text = true <->
     forall c, In c text -> isalpha_char c = true \/ isspace_char c = true) /\
  TCPServerEnhanced.validate_text [] = true /\
  (forall text,
     forallb isspace_char text = true ->
     TCPServerEnhanced.validate_text text = true) /\
  (forall w raw,
     sock_in w = Received raw -> PyStr.strip raw = [] ->
     sock_out (run TCPServerEnhanced.handle_client w)
     = sock_out w ++ [ERR_NO_DATA]).
Proof.
  assert (Hiff : forall text,
            TCPServerEnhanced.validate_text text = true <->
            forall c, In c text ->
                      isalpha_char c = true \/ isspace_char c = true).
  { intro text. unfold TCPServerEnhanced.validate_text.
    rewrite forallb_forall. split; intros H c Hc; specialize (H c Hc).
    - now apply orb_true_iff.
    - now apply orb_true_iff. }
  split; [exact Hiff|]. split; [reflexivity|]. split.
  - intros text H. apply Hiff. intros c Hc. right.
    rewrite forallb_forall in H. auto.
  - intros w raw Hin Hstrip. rewrite handle_client_enhanced_run. cbv zeta.
    rewrite Hin. unfold Summary.vowel_answer. cbv zeta.
    rewrite Hstrip. reflexivity.
Qed.

Lemma validate_text_letters_and_spaces_witness :
  @TCPServerEnhanced.validate_text sample_ucd [32%N; 9%N] = true /\
  sock_out (run (@TCPServerEnhanced.handle_client sample_ucd sample_pow)
              (connection [32%N; 9%N] [] true))
  = [ERR_NO_DATA].
Proof.
  split.
  - apply (proj1 (proj2 (proj2
      (@validate_text_letters_and_spaces sample_ucd sample_pow)))).
    reflexivity.
  - apply (proj2 (proj2 (proj2
      (@validate_text_letters_and_spaces sample_ucd sample_pow)))
      (connection [32%N; 9%N] [] true) [32%N; 9%N]); reflexivity.
Defined.

(** The claim as stated fails at the empty string: [validate_text]
    accepts it although nothing is left of it after trimming. *)
Lemma validate_text_accepts_empty :
  ~ (@TCPServerEnhanced.validate_text sample_ucd [] = true <->
     (forall c, In c [] ->
        @isalpha_char sample_ucd c = true \/ @isspace_char sample_ucd c = true)
     /\ @PyStr.strip sample_ucd [] <> []).
Proof.
  intros [H _]. destruct (H eq_refl) as [_ Hne]. now apply Hne.
Qed.

(** [is_prime] bounds its trial division by [int(n ** 0.5)], a
    floating-point value.  For every [n] from 0 up to [2 ^ 52], where that
    value is the integer square root, it returns and agrees with primality:
    0 and 1 are not prime, 2 is, an even number above 2 is not, and an odd
    number above 2 is exactly when no odd number from 3 up to its square
    root divides it.  Every count the server passes to it is in that
    range. *)
Theorem is_prime_trial_division {F : FloatPow} (n : Z) :
  (0 <= n < float_exact_bound)%Z ->
  TCPServerEnhanced.is_prime 0 = Some false /\
  TCPServerEnhanced.is_prime 1 = Some false /\
  TCPServerEnhanced.is_prime 2 = Some true /\
  ((2 < n)%Z -> Z.even n = true ->
   TCPServerEnhanced.is_prime n = Some false) /\
  ((2 < n)%Z -> Z.odd n = true ->
   (TCPServerEnhanced.is_prime n = Some true <->
    forall d, (3 <= d)%Z -> (d * d <= n)%Z -> Z.odd d = true -> ~ (d | n)%Z)) /\
  exists b, TCPServerEnhanced.is_prime n = Some b /\ (b = true <-> Z.prime n).
Proof.
  intro Hn.
  split; [reflexivity|]. split; [reflexivity|]. split; [reflexivity|].
  split; [apply is_prime_even|].
  split; [|now apply is_prime_correct].
  intros H2 Hodd. rewrite is_prime_odd by (assumption || lia).
  rewrite <- trial_division_sqrt by lia.
  split; [now intros [= ->] | now intros ->].
Qed.

Lemma is_prime_trial_division_witness :
  @TCPServerEnhanced.is_prime sample_pow 0 = Some false /\
  @TCPServerEnhanced.is_prime sample_pow 1 = Some false /\
  @TCPServerEnhanced.is_prime sample_pow 2 = Some true /\
  ((2 < 97)%Z -> Z.even 97 = true ->
   @TCPServerEnhanced.is_prime sample_pow 97 = Some false) /\
  ((2 < 97)%Z -> Z.odd 97 = true ->
   (@TCPServerEnhanced.is_prime sample_pow 97 = Some true <->
    forall d, (3 <= d)%Z -> (d * d <= 97)%Z -> Z.odd d = true -> ~ (d | 97)%Z)) /\
  exists b,
    @TCPServerEnhanced.is_prime sample_pow 97 = Some b /\
    (b = true <-> Z.prime 97).
Proof.
  apply (@is_prime_trial_division sample_pow 97).
  split; [discriminate | reflexivity].
Defined.

(** C5 (the code departs from it).  The claim: for every non-negative
    integer [is_prime] agrees with primality by trial division.  At the odd
    number [2 ^ 1024 + 1] the conversion to a float in [n ** 0.5] raises
    [OverflowError]: [is_prime] returns no boolean, where its docstring
    promises one and where an even number of that size is answered
    [False] ([is_prime_even]). *)
Lemma is_prime_overflows :
  ~ (exists b, @TCPServerEnhanced.is_prime sample_pow (2 ^ 1024 + 1) = Some b).
Proof.
  intros [b H]. vm_compute in H. discriminate.
Qed.

(** The platform's [pow] plays no part in it. *)
Lemma is_prime_overflow_any_platform {F : FloatPow} (n : Z) :
  (float_overflow_bound <= n)%Z -> Z.odd n = true ->
  TCPServerEnhanced.is_prime n = None.
Proof.
  intros Hn Ho.
  assert (Hbig : (float_exact_bound < float_overflow_bound)%Z) by reflexivity.
  unfold TCPServerEnhanced.is_prime, TCPServerEnhanced.int_sqrt_float.
  destruct (Z.ltb_spec n 2);
    [assert (2 < float_exact_bound)%Z by reflexivity; lia|].
  destruct (Z.eqb_spec n 2);
    [assert (2 < float_exact_bound)%Z by reflexivity; lia|].
  rewrite Zmod_odd, Ho. simpl.
  destruct (Z.ltb_spec n float_exact_bound); [lia|].
  destruct (Z.ltb_spec n float_overflow_bound); [lia | reflexivity].
Qed.

Lemma is_prime_overflow_any_platform_witness :
  @TCPServerEnhanced.is_prime sample_pow (2 ^ 1024 + 1) = None.
Proof.
  apply (@is_prime_overflow_any_platform sample_pow (2 ^ 1024 + 1)).
  - vm_compute. discriminate.
  - reflexivity.
Defined.

(** C6.  A message that passes validation and holds none of the
    characters of [aeiouAEIOU] is answered with the no-vowel error line and
    leaves the log file as it was; [find_last_vowel] returns [None] exactly
    for the texts that hold none of those characters. *)
Theorem no_vowel_rejected {U : UnicodeData} {F : FloatPow}
    (w : world) (raw : str) :
  sock_in w = Received raw ->
  PyStr.strip raw <> [] ->
  TCPServerEnhanced.validate_text (PyStr.strip raw) = true ->
  (forall c, In c (PyStr.strip raw) -> ~ In c (str_of "aeiouAEIOU")) ->
  sock_out (run TCPServerEnhanced.handle_client w)
  = sock_out w ++ [TCPServerEnhanced.ERR_NO_VOWEL] /\
  log_file (run TCPServerEnhanced.handle_client w) = log_file w /\
  (forall text,
     TCPServerEnhanced.find_last_vowel text = None <->
     forall c, In c text -> ~ In c (str_of "aeiouAEIOU")).
Proof.
  intros Hin Hne Hvalid Hnone.
  assert (Hfind : TCPServerEnhanced.find_last_vowel (PyStr.strip raw) = None)
    by now apply find_last_vowel_None.
  rewrite handle_client_enhanced_run. cbv zeta. rewrite Hin.
  unfold Summary.vowel_answer. cbv zeta. rewrite strip_idempotent.
  destruct (PyStr.strip raw) as [|d data] eqn:Hdata; [contradiction|].
  cbn [is_empty]. rewrite Hvalid, Hfind. cbn.
  repeat split; try apply app_nil_r; apply find_last_vowel_None.
Qed.

Lemma no_vowel_rejected_witness :
  sock_out (run (@TCPServerEnhanced.handle_client sample_ucd sample_pow)
              (connection (str_of "  xyz  ") (str_of "header") true))
  = [] ++ [TCPServerEnhanced.ERR_NO_VOWEL] /\
  log_file (run (@TCPServerEnhanced.handle_client sample_ucd sample_pow)
              (connection (str_of "  xyz  ") (str_of "header") true))
  = str_of "header" /\
  (forall text,
     @TCPServerEnhanced.find_last_vowel sample_ucd text = None <->
     forall c, In c text -> ~ In c (str_of "aeiouAEIOU")).
Proof.
  apply (@no_vowel_rejected sample_ucd sample_pow
           (connection (str_of "  xyz  ") (str_of "header") true)
           (str_of "  xyz  ")).
  - reflexivity.
  - discriminate.
  - reflexivity.
  - intros c Hc Hv. vm_compute in Hc, Hv.
    repeat match goal with
           | H : _ \/ _ |- _ => destruct H as [H | H]
           end; try contradiction; subst; discriminate.
Defined.

(** C7 (amended).  For "reconocer" the last-character server selects the
    last letter [r] and answers 2, the number of [r] in the word -- not the
    3 of the claim. *)
Theorem reconocer_answered_two {U : UnicodeData} (w : world) :
  PyStr.lower [last (str_of "reconocer") 0%N] = str_of "r" /\
  TCPServer.count_last_character (str_of "reconocer") = 2%nat /\
  sock_out (run TCPServer.handle_client (receiving (str_of "reconocer") w))
  = sock_out w ++ [count_line 2].
Proof.
  split; [|split].
  - now rewrite lower_basic_latin.
  - now rewrite (count_last_character_agree U sample_ucd).
  - rewrite handle_client_run. unfold served, receiving.
    cbn [sock_in sock_out].
    now rewrite (answer_agree U sample_ucd).
Qed.

Lemma reconocer_not_answered_three :
  sock_out (run (@TCPServer.handle_client sample_ucd)
              (connection (str_of "reconocer") [] true))
  <> [count_line 3].
Proof. vm_compute. discriminate. Qed.

(** C8 (amended).  "hello world" fails the validation of the
    last-character server, which allows no space.  The vowel server finds
    the last vowel [o], counts it twice, and answers 2; its primality
    verdict for 2 is "prime" ([SI] in the log record), not the "not prime"
    of the claim. *)
Theorem hello_world_answers {U : UnicodeData} {F : FloatPow} (w : world) :
  sock_out (run TCPServer.handle_client (receiving (str_of "hello world") w))
  = sock_out w ++ [TCPServer.ERR_NOT_ALPHA] /\
  TCPServerEnhanced.find_last_vowel (str_of "hello world") = Some (str_of "o") /\
  TCPServerEnhanced.count_vowel_occurrences (str_of "hello world")
    (Some (str_of "o")) = 2%nat /\
  TCPServerEnhanced.is_prime 2 = Some true /\
  sock_out (run TCPServerEnhanced.handle_client
              (receiving (str_of "hello world") w))
  = sock_out w ++ [count_line 2] /\
  log_file (run TCPServerEnhanced.handle_client
              (receiving (str_of "hello world") w))
  = log_file w ++
    (if log_writable w
     then Summary.log_record (clock w) (str_of "hello world") 2
            (str_of "SI") (Some (str_of "o"))
     else []).
Proof.
  assert (Hanswer :
            Summary.vowel_answer (Received (str_of "hello world"))
              (clock w) (log_writable w)
            = (count_line 2,
               if log_writable w
               then Summary.log_record (clock w)
                      (str_of "hello world") 2 (str_of "SI")
                      (Some (str_of "o"))
               else [])).
  { now rewrite (enhanced_answer_agree U sample_ucd). }
  split; [|split; [|split; [|split; [reflexivity|split]]]].
  - rewrite handle_client_run. unfold served, receiving.
    cbn [sock_in sock_out].
    now rewrite (answer_agree U sample_ucd).
  - now rewrite (find_last_vowel_agree U sample_ucd).
  - rewrite (count_vowel_occurrences_agree U sample_ucd);
      [reflexivity | reflexivity | intros v [= <-]; reflexivity].
  - rewrite handle_client_enhanced_run. cbv zeta. unfold served, receiving.
    cbn [sock_in sock_out clock log_writable]. now rewrite Hanswer.
  - rewrite handle_client_enhanced_run. cbv zeta. unfold served, receiving.
    cbn [sock_in log_file clock log_writable]. now rewrite Hanswer.
Qed.

Lemma hello_world_count_is_prime :
  ~ (@TCPServerEnhanced.count_vowel_occurrences sample_ucd
       (str_of "hello world") (Some (str_of "o")) = 2%nat /\
     @TCPServerEnhanced.is_prime sample_pow 2 = Some false).
Proof. intros [_ H]. vm_compute in H. discriminate. Qed.

(** C10.  [count_last_character] returns 0 for the empty string; the
    handler never calls it on one, since it answers "no data" when nothing
    is left of the payload after trimming. *)
Theorem count_last_character_empty {U : UnicodeData} :
  TCPServer.count_last_character [] = 0%nat /\
  forall w raw,
    sock_in w = Received raw -> PyStr.strip raw = [] ->
    sock_out (run TCPServer.handle_client w) = sock_out w ++ [ERR_NO_DATA].
Proof.
  split; [reflexivity|].
  intros w raw Hin Hstrip. rewrite handle_client_run.
  unfold served, Summary.last_character_answer. cbn [sock_out]. cbv zeta.
  now rewrite Hin, Hstrip.
Qed.

Lemma count_last_character_empty_witness :
  @TCPServer.count_last_character sample_ucd [] = 0%nat /\
  sock_out (run (@TCPServer.handle_client sample_ucd)
              (connection (str_of "   ") [] true))
  = [ERR_NO_DATA].
Proof.
  split.
  - exact (proj1 (@count_last_character_empty sample_ucd)).
  - apply (proj2 (@count_last_character_empty sample_ucd)
             (connection (str_of "   ") [] true) (str_of "   "));
      reflexivity.
Defined.

(** ** Further properties the specification states *)

(** A message with a character that is not a letter (in the vowel server:
    neither a letter nor white space) is answered with the validation
    error, and nothing is logged. *)
Theorem invalid_characters_rejected {U : UnicodeData} {F : FloatPow}
    (w : world) (raw : str) (c : char) :
  sock_in w = Received raw ->
  In c (PyStr.strip raw) ->
  isalpha_char c = false ->
  sock_out (run TCPServer.handle_client w)
  = sock_out w ++ [TCPServer.ERR_NOT_ALPHA] /\
  (isspace_char c = false ->
   sock_out (run TCPServerEnhanced.handle_client w)
   = sock_out w ++ [TCPServerEnhanced.ERR_NOT_LETTERS] /\
   log_file (run TCPServerEnhanced.handle_client w) = log_file w).
Proof.
  intros Hin Hc Halpha.
  rewrite handle_client_run, handle_client_enhanced_run. cbv zeta.
  unfold served, Summary.last_character_answer, Summary.vowel_answer.
  cbn [sock_out log_file]. rewrite Hin. cbv zeta.
  destruct (PyStr.strip raw) as [|d data] eqn:Hdata; [contradiction|].
  cbn [is_empty]. split.
  - replace (TCPServer.validate_text (d :: data)) with false; [reflexivity|].
    symmetry. unfold TCPServer.validate_text, PyStr.isalpha.
    apply andb_false_iff. right.
    apply not_true_is_false. rewrite forallb_forall. intro H.
    specialize (H c Hc). congruence.
  - intro Hspace.
    replace (TCPServerEnhanced.validate_text (d :: data)) with false;
      [cbn; now rewrite app_nil_r|].
    symmetry. unfold TCPServerEnhanced.validate_text.
    apply not_true_is_false. rewrite forallb_forall. intro H.
    specialize (H c Hc). rewrite Halpha, Hspace in H. discriminate.
Qed.

Lemma invalid_characters_rejected_witness :
  sock_out (run (@TCPServer.handle_client sample_ucd)
              (connection (str_of "test123") [] true))
  = [] ++ [TCPServer.ERR_NOT_ALPHA] /\
  (@isspace_char sample_ucd 49%N = false ->
   sock_out (run (@TCPServerEnhanced.handle_client sample_ucd sample_pow)
               (connection (str_of "test123") [] true))
   = [] ++ [TCPServerEnhanced.ERR_NOT_LETTERS] /\
   log_file (run (@TCPServerEnhanced.handle_client sample_ucd sample_pow)
               (connection (str_of "test123") [] true))
   = []).
Proof.
  apply (@invalid_characters_rejected sample_ucd sample_pow
           (connection (str_of "test123") [] true) (str_of "test123") 49%N).
  - reflexivity.
  - vm_compute. tauto.
  - reflexivity.
Defined.

(** The scenarios of the specification for the last-character server. *)
Theorem last_character_scenarios {U : UnicodeData} (w : world) :
  sock_out (run TCPServer.handle_client (receiving (str_of "hola") w))
  = sock_out w ++ [count_line 1] /\
  sock_out (run TCPServer.handle_client (receiving (str_of "banana") w))
  = sock_out w ++ [count_line 3] /\
  sock_out (run TCPServer.handle_client (receiving (str_of "test123") w))
  = sock_out w ++ [TCPServer.ERR_NOT_ALPHA] /\
  sock_out (run TCPServer.handle_client (receiving [] w))
  = sock_out w ++ [ERR_NO_DATA].
Proof.
  rewrite !handle_client_run. unfold served, receiving.
  cbn [sock_in sock_out].
  rewrite !(answer_agree U sample_ucd) by reflexivity.
  repeat split.
Qed.

(** The same message on two connections in a row: the same answer twice,
    and two records in the log, one per connection. *)
Theorem same_message_twice {U : UnicodeData} {F : FloatPow}
    (raw log now1 now2 : str) :
  (Z.of_nat (List.length raw) <= 4096)%Z ->
  PyStr.strip raw <> [] ->
  TCPServerEnhanced.validate_text (PyStr.strip raw) = true ->
  (exists c, In c (PyStr.strip raw) /\ In c TCPServerEnhanced.vowels) ->
  exists count prime,
    sock_out (run TCPServerEnhanced.handle_client
                (mkWorld (Received raw) [] false log true now1))
    = [count_line count] /\
    sock_out (run TCPServerEnhanced.handle_client
                (mkWorld (Received raw) [] false
                   (log_file (run TCPServerEnhanced.handle_client
                                (mkWorld (Received raw) [] false log true now1)))
                   true now2))
    = [count_line count] /\
    log_file (run TCPServerEnhanced.handle_client
                (mkWorld (Received raw) [] false
                   (log_file (run TCPServerEnhanced.handle_client
                                (mkWorld (Received raw) [] false log true now1)))
                   true now2))
    = (log ++
       Summary.log_record now1 (PyStr.strip raw) count
         (Summary.verdict prime)
         (TCPServerEnhanced.find_last_vowel (PyStr.strip raw))) ++
      Summary.log_record now2 (PyStr.strip raw) count
        (Summary.verdict prime)
        (TCPServerEnhanced.find_last_vowel (PyStr.strip raw)).
Proof.
  intros Hlen Hne Hvalid Hvowel.
  set (w1 := mkWorld (Received raw) [] false log true now1).
  destruct (analysed_message_effect w1 raw eq_refl
              Hlen Hne Hvalid Hvowel) as (prime & Hp & Hout1 & Hlog1).
  set (w2 := mkWorld (Received raw) [] false
               (log_file (run TCPServerEnhanced.handle_client w1)) true now2).
  destruct (analysed_message_effect w2 raw eq_refl
              Hlen Hne Hvalid Hvowel) as (prime' & Hp' & Hout2 & Hlog2).
  assert (prime' = prime) by congruence. subst prime'.
  eexists. exists prime.
  split; [exact Hout1|]. split; [exact Hout2|].
  rewrite Hlog2. cbn [log_file log_writable clock w2 w1].
  rewrite Hlog1. reflexivity.
Qed.

Lemma same_message_twice_witness :
  exists count prime,
    sock_out (run (@TCPServerEnhanced.handle_client sample_ucd sample_pow)
                (mkWorld (Received (str_of "banana")) [] false [] true
                   (str_of "10:30:00")))
    = [count_line count] /\
    sock_out (run (@TCPServerEnhanced.handle_client sample_ucd sample_pow)
                (mkWorld (Received (str_of "banana")) [] false
                   (log_file
                      (run (@TCPServerEnhanced.handle_client sample_ucd sample_pow)
                         (mkWorld (Received (str_of "banana")) [] false []
                            true (str_of "10:30:00"))))
                   true (str_of "10:30:01")))
    = [count_line count] /\
    log_file (run (@TCPServerEnhanced.handle_client sample_ucd sample_pow)
                (mkWorld (Received (str_of "banana")) [] false
                   (log_file
                      (run (@TCPServerEnhanced.handle_client sample_ucd sample_pow)
                         (mkWorld (Received (str_of "banana")) [] false []
                            true (str_of "10:30:00"))))
                   true (str_of "10:30:01")))
    = ([] ++
       @Summary.log_record (str_of "10:30:00")
         (@PyStr.strip sample_ucd (str_of "banana")) count
         (Summary.verdict prime)
         (@TCPServerEnhanced.find_last_vowel sample_ucd
            (@PyStr.strip sample_ucd (str_of "banana")))) ++
      @Summary.log_record (str_of "10:30:01")
        (@PyStr.strip sample_ucd (str_of "banana")) count
        (Summary.verdict prime)
        (@TCPServerEnhanced.find_last_vowel sample_ucd
           (@PyStr.strip sample_ucd (str_of "banana"))).
Proof.
  apply (@same_message_twice sample_ucd sample_pow (str_of "banana") []
           (str_of "10:30:00") (str_of "10:30:01")).
  - vm_compute. discriminate.
  - discriminate.
  - reflexivity.
  - exists 97%N. split; vm_compute; tauto.
Defined.

(** ** UTF-8 *)

Section Utf8Facts.
Open Scope N_scope.

Ltac nlia := zify; Z.to_euclidean_division_equations; lia.

Lemma byte_value (n : N) : n < 256 -> N_of_ascii (Utf8.byte n) = n.
Proof. apply N_ascii_embedding. Qed.

Lemma value_byte (b : ascii) : Utf8.byte (N_of_ascii b) = b.
Proof. apply ascii_N_embedding. Qed.

Lemma continuation_byte (x : N) :
  x < 64 -> Utf8.continuation (Utf8.byte (128 + x)) = Some x.
Proof.
  intro H. unfold Utf8.continuation. cbv zeta. rewrite byte_value by lia.
  destruct (N.leb_spec 128 (128 + x)); [|lia].
  destruct (N.ltb_spec (128 + x) 192); [|lia].
  cbn [andb]. f_equal. lia.
Qed.

Lemma continuation_inv (b : ascii) (x : N) :
  Utf8.continuation b = Some x -> x < 64 /\ N_of_ascii b = 128 + x.
Proof.
  unfold Utf8.continuation. cbv zeta.
  destruct (N.leb_spec 128 (N_of_ascii b)); [|discriminate].
  destruct (N.ltb_spec (N_of_ascii b) 192); [|discriminate].
  cbn [andb]. intros [= <-]. lia.
Qed.

Lemma decode_1 (b0 : ascii) (r : string) :
  N_of_ascii b0 < 128 ->
  Utf8.decode (String b0 r) = Utf8.push (N_of_ascii b0) (Utf8.decode r).
Proof.
  intro H. cbn [Utf8.decode]. cbv zeta.
  destruct (N.ltb_spec (N_of_ascii b0) 128); [reflexivity | lia].
Qed.

Lemma decode_2 (b0 b1 : ascii) (r : string) (x1 : N) :
  194 <= N_of_ascii b0 < 224 ->
  Utf8.continuation b1 = Some x1 ->
  Utf8.decode (String b0 (String b1 r)) =
  Utf8.push ((N_of_ascii b0 - 192) * 64 + x1) (Utf8.decode r).
Proof.
  intros H H1. cbn [Utf8.decode]. cbv zeta.
  destruct (N.ltb_spec (N_of_ascii b0) 128); [lia|].
  destruct (N.ltb_spec (N_of_ascii b0) 194); [lia|].
  destruct (N.ltb_spec (N_of_ascii b0) 224); [|lia].
  now rewrite H1.
Qed.

Lemma decode_3 (b0 b1 b2 : ascii) (r : string) (x1 x2 : N) :
  224 <= N_of_ascii b0 < 240 ->
  Utf8.continuation b1 = Some x1 ->
  Utf8.continuation b2 = Some x2 ->
  2048 <= (N_of_ascii b0 - 224) * 4096 + x1 * 64 + x2 ->
  Utf8.is_surrogate ((N_of_ascii b0 - 224) * 4096 + x1 * 64 + x2) = false ->
  Utf8.decode (String b0 (String b1 (String b2 r))) =
  Utf8.push ((N_of_ascii b0 - 224) * 4096 + x1 * 64 + x2) (Utf8.decode r).
Proof.
  intros H H1 H2 Hlow Hsur. cbn [Utf8.decode]. cbv zeta.
  destruct (N.ltb_spec (N_of_ascii b0) 128); [lia|].
  destruct (N.ltb_spec (N_of_ascii b0) 194); [lia|].
  destruct (N.ltb_spec (N_of_ascii b0) 224); [lia|].
  destruct (N.ltb_spec (N_of_ascii b0) 240); [|lia].
  rewrite H1, H2, Hsur.
  destruct (N.ltb_spec ((N_of_ascii b0 - 224) * 4096 + x1 * 64 + x2) 2048);
    [lia | reflexivity].
Qed.

Lemma decode_4 (b0 b1 b2 b3 : ascii) (r : string) (x1 x2 x3 : N) :
  240 <= N_of_ascii b0 < 245 ->
  Utf8.continuation b1 = Some x1 ->
  Utf8.continuation b2 = Some x2 ->
  Utf8.continuation b3 = Some x3 ->
  65536 <= (N_of_ascii b0 - 240) * 262144 + x1 * 4096 + x2 * 64 + x3
        <= 1114111 ->
  Utf8.decode (String b0 (String b1 (String b2 (String b3 r)))) =
  Utf8.push ((N_of_ascii b0 - 240) * 262144 + x1 * 4096 + x2 * 64 + x3)
    (Utf8.decode r).
Proof.
  intros H H1 H2 H3 Hc. cbn [Utf8.decode]. cbv zeta.
  destruct (N.ltb_spec (N_of_ascii b0) 128); [lia|].
  destruct (N.ltb_spec (N_of_ascii b0) 194); [lia|].
  destruct (N.ltb_spec (N_of_ascii b0) 224); [lia|].
  destruct (N.ltb_spec (N_of_ascii b0) 240); [lia|].
  destruct (N.ltb_spec (N_of_ascii b0) 245); [|lia].
  rewrite H1, H2, H3.
  destruct (N.ltb_spec
              ((N_of_ascii b0 - 240) * 262144 + x1 * 4096 + x2 * 64 + x3) 65536);
    [lia|].
  destruct (N.ltb_spec 1114111
              ((N_of_ascii b0 - 240) * 262144 + x1 * 4096 + x2 * 64 + x3));
    [lia | reflexivity].
Qed.

(** Decoding reads back one encoded character. *)
Lemma some_eq {A} (x y : A) : Some x = Some y -> y = x.
Proof. congruence. Qed.

Lemma decode_encode_char (c : char) (bs rest : string) :
  Utf8.encode_char c = Some bs ->
  Utf8.decode (bs ++ rest) = Utf8.push c (Utf8.decode rest).
Proof.
  unfold Utf8.encode_char.
  destruct (N.ltb_spec c 128) as [H1|H1].
  { intro E; apply some_eq in E; subst bs; cbn [String.append].
    rewrite decode_1; rewrite byte_value by lia; [reflexivity | lia]. }
  destruct (N.ltb_spec c 2048) as [H2|H2].
  { intro E; apply some_eq in E; subst bs; cbn [String.append].
    rewrite (decode_2 _ _ _ (c mod 64)).
    - rewrite byte_value by nlia. f_equal. nlia.
    - rewrite byte_value by nlia. nlia.
    - apply continuation_byte. nlia. }
  destruct (N.ltb_spec c 65536) as [H3|H3].
  { destruct (Utf8.is_surrogate c) eqn:Hs; [discriminate|].
    intro E; apply some_eq in E; subst bs; cbn [String.append].
    assert (E : (224 + c / 4096 - 224) * 4096 + (c / 64) mod 64 * 64 + c mod 64
                = c) by nlia.
    rewrite (decode_3 _ _ _ _ ((c / 64) mod 64) (c mod 64));
      rewrite ?byte_value by nlia; rewrite ?E; try assumption.
    - reflexivity.
    - nlia.
    - apply continuation_byte. nlia.
    - apply continuation_byte. nlia. }
  destruct (N.ltb_spec c 1114112) as [H4|H4]; [|discriminate].
  intro E; apply some_eq in E; subst bs; cbn [String.append].
  assert (E : (240 + c / 262144 - 240) * 262144 + (c / 4096) mod 64 * 4096
              + (c / 64) mod 64 * 64 + c mod 64 = c) by nlia.
  rewrite (decode_4 _ _ _ _ _ ((c / 4096) mod 64) ((c / 64) mod 64) (c mod 64));
    rewrite ?byte_value by nlia; rewrite ?E.
  - reflexivity.
  - nlia.
  - apply continuation_byte. nlia.
  - apply continuation_byte. nlia.
  - apply continuation_byte. nlia.
  - lia.
Qed.

Lemma append_assoc (a b c : string) :
  ((a ++ b) ++ c)%string = (a ++ (b ++ c))%string.
Proof. induction a as [|x a IH]; simpl; [reflexivity | now rewrite IH]. Qed.

Lemma decode_encode_app (s : str) (bs rest : string) :
  Utf8.encode s = Some bs ->
  Utf8.decode (bs ++ rest) =
  match Utf8.decode rest with
  | Some t => Some (s ++ t)
  | None => None
  end.
Proof.
  revert bs. induction s as [|c s IH]; intros bs; simpl.
  - intros [= <-]. simpl. now destruct (Utf8.decode rest).
  - destruct (Utf8.encode_char c) as [b|] eqn:Hc; [|discriminate].
    destruct (Utf8.encode s) as [b'|] eqn:Hs; [|discriminate].
    intros [= <-]. rewrite append_assoc.
    rewrite (decode_encode_char c b _ Hc), (IH b' eq_refl).
    now destruct (Utf8.decode rest).
Qed.

Lemma push_inv (c : char) (o : option str) (s : str) :
  Utf8.push c o = Some s -> exists s', o = Some s' /\ s = c :: s'.
Proof.
  destruct o as [s'|]; simpl; [|discriminate].
  intros [= <-]. now exists s'.
Qed.

Lemma encode_char_1 (n0 : N) :
  n0 < 128 -> Utf8.encode_char n0 = Some (String (Utf8.byte n0) EmptyString).
Proof.
  intro H. unfold Utf8.encode_char.
  destruct (N.ltb_spec n0 128); [reflexivity | lia].
Qed.

Lemma encode_char_2 (n0 x1 : N) :
  194 <= n0 < 224 -> x1 < 64 ->
  Utf8.encode_char ((n0 - 192) * 64 + x1) =
  Some (String (Utf8.byte n0) (String (Utf8.byte (128 + x1)) EmptyString)).
Proof.
  intros H H1. unfold Utf8.encode_char.
  destruct (N.ltb_spec ((n0 - 192) * 64 + x1) 128); [lia|].
  destruct (N.ltb_spec ((n0 - 192) * 64 + x1) 2048); [|lia].
  repeat f_equal; nlia.
Qed.

Lemma encode_char_3 (n0 x1 x2 : N) :
  224 <= n0 < 240 -> x1 < 64 -> x2 < 64 ->
  2048 <= (n0 - 224) * 4096 + x1 * 64 + x2 ->
  Utf8.is_surrogate ((n0 - 224) * 4096 + x1 * 64 + x2) = false ->
  Utf8.encode_char ((n0 - 224) * 4096 + x1 * 64 + x2) =
  Some (String (Utf8.byte n0) (String (Utf8.byte (128 + x1))
       (String (Utf8.byte (128 + x2)) EmptyString))).
Proof.
  intros H H1 H2 Hlow Hs. unfold Utf8.encode_char. rewrite Hs.
  destruct (N.ltb_spec ((n0 - 224) * 4096 + x1 * 64 + x2) 128); [lia|].
  destruct (N.ltb_spec ((n0 - 224) * 4096 + x1 * 64 + x2) 2048); [lia|].
  destruct (N.ltb_spec ((n0 - 224) * 4096 + x1 * 64 + x2) 65536); [|lia].
  repeat f_equal; nlia.
Qed.

Lemma encode_char_4 (n0 x1 x2 x3 : N) :
  240 <= n0 < 245 -> x1 < 64 -> x2 < 64 -> x3 < 64 ->
  65536 <= (n0 - 240) * 262144 + x1 * 4096 + x2 * 64 + x3 <= 1114111 ->
  Utf8.encode_char ((n0 - 240) * 262144 + x1 * 4096 + x2 * 64 + x3) =
  Some (String (Utf8.byte n0) (String (Utf8.byte (128 + x1))
       (String (Utf8.byte (128 + x2))
       (String (Utf8.byte (128 + x3)) EmptyString)))).
Proof.
  intros H H1 H2 H3 Hc. unfold Utf8.encode_char.
  destruct (N.ltb_spec ((n0 - 240) * 262144 + x1 * 4096 + x2 * 64 + x3) 128);
    [lia|].
  destruct (N.ltb_spec ((n0 - 240) * 262144 + x1 * 4096 + x2 * 64 + x3) 2048);
    [lia|].
  destruct (N.ltb_spec ((n0 - 240) * 262144 + x1 * 4096 + x2 * 64 + x3) 65536);
    [lia|].
  destruct (N.ltb_spec ((n0 - 240) * 262144 + x1 * 4096 + x2 * 64 + x3) 1114112);
    [|lia].
  repeat f_equal; nlia.
Qed.

Lemma continuation_value (b : ascii) (x : N) :
  Utf8.continuation b = Some x -> x < 64 /\ Utf8.byte (128 + x) = b.
Proof.
  intro H. apply continuation_inv in H as [Hx E].
  split; [assumption|]. rewrite <- E. apply value_byte.
Qed.

(** A successful decoding starts with the encoding of its first
    character. *)
Lemma decode_inv (b0 : ascii) (r0 : string) (s : str) :
  Utf8.decode (String b0 r0) = Some s ->
  exists c bs r s',
    Utf8.encode_char c = Some bs /\ String b0 r0 = (bs ++ r)%string /\
    Utf8.decode r = Some s' /\ s = c :: s' /\
    (String.length r < String.length (String b0 r0))%nat.
Proof.
  cbn [Utf8.decode]. cbv zeta.
  destruct (N.ltb_spec (N_of_ascii b0) 128) as [H1|H1].
  { intro H. apply push_inv in H as (s' & Hr & ->).
    exists (N_of_ascii b0), (String b0 EmptyString), r0, s'.
    rewrite encode_char_1, value_byte by assumption.
    repeat split; try assumption. simpl. lia. }
  destruct (N.ltb_spec (N_of_ascii b0) 194) as [H2|H2]; [discriminate|].
  destruct (N.ltb_spec (N_of_ascii b0) 224) as [H3|H3].
  { destruct r0 as [|b1 r1]; [discriminate|].
    destruct (Utf8.continuation b1) as [x1|] eqn:E1; [|discriminate].
    intro H. apply push_inv in H as (s' & Hr & ->).
    apply continuation_value in E1 as [Hx1 E1].
    exists ((N_of_ascii b0 - 192) * 64 + x1). eexists _, r1, s'.
    rewrite encode_char_2 by (assumption || lia).
    rewrite value_byte, E1.
    repeat split; try assumption. simpl. lia. }
  destruct (N.ltb_spec (N_of_ascii b0) 240) as [H4|H4].
  { destruct r0 as [|b1 [|b2 r2]]; try discriminate.
    destruct (Utf8.continuation b1) as [x1|] eqn:E1; [|discriminate].
    destruct (Utf8.continuation b2) as [x2|] eqn:E2; [|discriminate].
    destruct (N.ltb_spec ((N_of_ascii b0 - 224) * 4096 + x1 * 64 + x2) 2048)
      as [Hlow|Hlow]; [discriminate|].
    destruct (Utf8.is_surrogate
                ((N_of_ascii b0 - 224) * 4096 + x1 * 64 + x2)) eqn:Hs;
      [discriminate|].
    cbn [orb]. intro H. apply push_inv in H as (s' & Hr & ->).
    apply continuation_value in E1 as [Hx1 E1].
    apply continuation_value in E2 as [Hx2 E2].
    exists ((N_of_ascii b0 - 224) * 4096 + x1 * 64 + x2). eexists _, r2, s'.
    rewrite encode_char_3 by (assumption || lia).
    rewrite value_byte, E1, E2.
    repeat split; try assumption. simpl. lia. }
  destruct (N.ltb_spec (N_of_ascii b0) 245) as [H5|H5]; [|discriminate].
  destruct r0 as [|b1 [|b2 [|b3 r3]]]; try discriminate.
  destruct (Utf8.continuation b1) as [x1|] eqn:E1; [|discriminate].
  destruct (Utf8.continuation b2) as [x2|] eqn:E2; [|discriminate].
  destruct (Utf8.continuation b3) as [x3|] eqn:E3; [|discriminate].
  destruct (N.ltb_spec
              ((N_of_ascii b0 - 240) * 262144 + x1 * 4096 + x2 * 64 + x3) 65536)
    as [Hlow|Hlow]; [discriminate|].
  destruct (N.ltb_spec 1114111
              ((N_of_ascii b0 - 240) * 262144 + x1 * 4096 + x2 * 64 + x3))
    as [Hhigh|Hhigh]; [discriminate|].
  cbn [orb]. intro H. apply push_inv in H as (s' & Hr & ->).
  apply continuation_value in E1 as [Hx1 E1].
  apply continuation_value in E2 as [Hx2 E2].
  apply continuation_value in E3 as [Hx3 E3].
  exists ((N_of_ascii b0 - 240) * 262144 + x1 * 4096 + x2 * 64 + x3).
  eexists _, r3, s'.
  rewrite encode_char_4 by (assumption || lia).
  rewrite value_byte, E1, E2, E3.
  repeat split; try assumption. simpl. lia.
Qed.

Lemma encode_decode_bounded (n : nat) (bs : string) (s : str) :
  (String.length bs <= n)%nat ->
  Utf8.decode bs = Some s -> Utf8.encode s = Some bs.
Proof.
  revert bs s. induction n as [|n IH]; intros bs s Hlen H.
  - destruct bs; [|simpl in Hlen; lia].
    simpl in H. injection H as <-. reflexivity.
  - destruct bs as [|b0 r0].
    + simpl in H. injection H as <-. reflexivity.
    + apply decode_inv in H as (c & b & r & s' & Hc & E & Hr & -> & Hlt).
      simpl. rewrite Hc, (IH r s') by (assumption || lia).
      now rewrite E.
Qed.

End Utf8Facts.

Lemma append_empty (bs : string) : (bs ++ "")%string = bs.
Proof.
  induction bs as [|b bs IH]; simpl; [reflexivity | now rewrite IH].
Qed.

(** What [str.encode('utf-8')] produces, [bytes.decode('utf-8')] reads
    back: every text that can be encoded survives the round trip. *)
Theorem utf8_decode_encode (s : str) (bs : string) :
  Utf8.encode s = Some bs -> Utf8.decode bs = Some s.
Proof.
  intro H. pose proof (decode_encode_app s bs EmptyString H) as E.
  simpl in E. now rewrite app_nil_r, append_empty in E.
Qed.

Lemma utf8_decode_encode_witness :
  Utf8.decode (String (Utf8.byte 195) (String (Utf8.byte 177) "o"))
  = Some [241%N; 111%N].
Proof.
  apply (utf8_decode_encode [241%N; 111%N]
           (String (Utf8.byte 195) (String (Utf8.byte 177) "o"))).
  reflexivity.
Defined.

(** Strict decoding accepts only what encoding produces: a byte string
    that decodes is the encoding of its text, so no two byte strings decode
    to the same text. *)
Theorem utf8_encode_decode (bs : string) (s : str) :
  Utf8.decode bs = Some s -> Utf8.encode s = Some bs.
Proof. apply (encode_decode_bounded (String.length bs)). lia. Qed.

Lemma utf8_encode_decode_witness :
  Utf8.encode [8364%N; 53%N]
  = Some (String (Utf8.byte 226) (String (Utf8.byte 130)
            (String (Utf8.byte 172) "5"))).
Proof.
  apply (utf8_encode_decode
           (String (Utf8.byte 226) (String (Utf8.byte 130)
              (String (Utf8.byte 172) "5")))
           [8364%N; 53%N]).
  reflexivity.
Defined.

(** ** The lines on the wire *)

Section Lines.
Open Scope N_scope.

Lemma string_of_uint_digits (d : Decimal.uint) :
  Forall is_digit (list_ascii_of_string (NilEmpty.string_of_uint d)).
Proof.
  induction d; simpl; constructor; try assumption;
    unfold is_digit; simpl; lia.
Qed.

Lemma to_uint_not_nil (n : nat) : Nat.to_uint n <> Decimal.Nil.
Proof.
  pose proof (DecimalNat.Unsigned.to_of (Nat.to_uint n)) as H.
  rewrite DecimalNat.Unsigned.of_to in H. rewrite H.
  unfold Decimal.unorm. destruct (Decimal.nzhead (Nat.to_uint n)); discriminate.
Qed.

Lemma decimal_digits (n : nat) :
  Forall is_digit (list_ascii_of_string (decimal n)).
Proof. apply string_of_uint_digits. Qed.

Lemma decimal_not_empty (n : nat) : decimal n <> EmptyString.
Proof.
  unfold decimal. pose proof (to_uint_not_nil n) as H.
  destruct (Nat.to_uint n); try contradiction; discriminate.
Qed.

Lemma decimal_injective (n m : nat) : decimal n = decimal m -> n = m.
Proof.
  unfold decimal. intro H.
  apply DecimalNat.Unsigned.to_uint_inj.
  pose proof (NilEmpty.usu (Nat.to_uint n)) as Hn.
  pose proof (NilEmpty.usu (Nat.to_uint m)) as Hm.
  congruence.
Qed.

Lemma string_length_app (a b : string) :
  String.length (a ++ b) = (String.length a + String.length b)%nat.
Proof. induction a as [|x a IH]; simpl; [reflexivity | now rewrite IH]. Qed.

Lemma append_injective_l (a b c : string) :
  (a ++ c)%string = (b ++ c)%string -> a = b.
Proof.
  revert b. induction a as [|x a IH]; intros [|y b] H; simpl in H.
  - reflexivity.
  - exfalso. apply (f_equal String.length) in H. simpl in H.
    rewrite string_length_app in H. lia.
  - exfalso. apply (f_equal String.length) in H. simpl in H.
    rewrite string_length_app in H. lia.
  - injection H as -> H. f_equal. now apply IH.
Qed.

(** A byte string of Basic Latin decodes to itself. *)
Lemma decode_basic_latin (bs : string) :
  Forall (fun a => N_of_ascii a < 128) (list_ascii_of_string bs) ->
  Utf8.decode bs = Some (str_of bs).
Proof.
  induction bs as [|b bs IH]; intro H; [reflexivity|].
  simpl in H. inversion H as [|? ? Hb Hbs]; subst.
  rewrite decode_1 by assumption. rewrite (IH Hbs). reflexivity.
Qed.

Lemma list_ascii_app (a b : string) :
  list_ascii_of_string (a ++ b) =
  (list_ascii_of_string a ++ list_ascii_of_string b)%list.
Proof. induction a as [|x a IH]; simpl; [reflexivity | now rewrite IH]. Qed.

Lemma decode_count_line (n : nat) :
  Utf8.decode (count_line n) = Some (str_of (decimal n) ++ [10]).
Proof.
  unfold count_line. rewrite decode_basic_latin.
  - unfold str_of. now rewrite list_ascii_app, map_app.
  - rewrite list_ascii_app. apply Forall_app. split.
    + eapply Forall_impl; [|apply decimal_digits].
      unfold is_digit. intros a Ha. lia.
    + repeat constructor.
Qed.

End Lines.

Lemma count_line_head (n : nat) (rest : string) :
  count_line n <> String "E"%char rest.
Proof.
  intro H. unfold count_line in H.
  pose proof (decimal_digits n) as Hd.
  pose proof (decimal_not_empty n) as Hne.
  destruct (decimal n) as [|a s]; [contradiction|].
  simpl in H. injection H as -> _.
  inversion Hd as [|? ? Ha _]; subst. unfold is_digit in Ha.
  simpl in Ha. lia.
Qed.

Lemma count_line_injective (n m : nat) : count_line n = count_line m -> n = m.
Proof.
  intro H. apply decimal_injective.
  unfold count_line in H. now apply append_injective_l in H.
Qed.

(** The reply line determines what the server decided: two counts give
    two different lines, and a count line is none of the error lines (it
    starts with a digit). *)
Theorem reply_lines_distinct (n m : nat) :
  (count_line n = count_line m -> n = m) /\
  count_line n <> ERR_NO_DATA /\
  count_line n <> ERR_INTERNAL /\
  count_line n <> TCPServer.ERR_NOT_ALPHA /\
  count_line n <> TCPServerEnhanced.ERR_NOT_LETTERS /\
  count_line n <> TCPServerEnhanced.ERR_BLANK /\
  count_line n <> TCPServerEnhanced.ERR_NO_VOWEL.
Proof.
  split; [apply count_line_injective|].
  repeat split; apply count_line_head.
Qed.

(** ** The last vowel and its count *)

Section LastVowel.
Context {U : UnicodeData} {F : FloatPow}.

Lemma find_split (p : char -> bool) (l : str) (c : char) :
  find p l = Some c ->
  exists a b, l = a ++ c :: b /\ p c = true /\ forall x, In x a -> p x = false.
Proof.
  induction l as [|x l IH]; simpl; [discriminate|].
  destruct (p x) eqn:Hx.
  - intros [= ->]. exists [], l. repeat split; [assumption | intros ? []].
  - intro H. destruct (IH H) as (a & b & -> & Hc & Ha).
    exists (x :: a), b. repeat split; [assumption|].
    intros y [<- | Hy]; auto.
Qed.

Lemma find_first (p : char -> bool) (a b : str) (c : char) :
  p c = true -> (forall x, In x a -> p x = false) ->
  find p (a ++ c :: b) = Some c.
Proof.
  intros Hc Ha. induction a as [|x a IH]; simpl.
  - now rewrite Hc.
  - rewrite (Ha x) by now left. apply IH. intros y Hy. apply Ha. now right.
Qed.

Lemma ascii_lower_idempotent (c : char) :
  ascii_lower (ascii_lower c) = ascii_lower c.
Proof.
  unfold ascii_lower. destruct (ascii_isupper c) eqn:E; [|now rewrite E].
  replace (ascii_isupper (c + 32)%N) with false; [reflexivity|].
  unfold ascii_isupper in *. apply andb_true_iff in E as [E _].
  apply N.leb_le in E. symmetry. apply andb_false_iff. right.
  apply N.leb_gt. lia.
Qed.

Lemma lower_basic_latin_char (c : char) :
  (c < 128)%N -> PyStr.lower [c] = [ascii_lower c].
Proof.
  intro H. rewrite lower_basic_latin; [reflexivity|].
  unfold basic_latin. cbn [forallb]. rewrite andb_true_r. now apply N.ltb_lt.
Qed.

Lemma lower_from_In (seen s : str) (c : char) :
  In c s -> (c < 128)%N -> In (ascii_lower c) (PyStr.lower_from seen s).
Proof.
  revert seen. induction s as [|x s IH]; intros seen Hin Hc; [contradiction|].
  cbn [PyStr.lower_from]. apply in_or_app.
  destruct Hin as [-> | Hin].
  - left.
    replace (c =? capital_sigma)%N with false
      by (symmetry; apply N.eqb_neq; unfold capital_sigma; lia).
    rewrite basic_latin_lower by assumption. now left.
  - right. now apply IH.
Qed.

Lemma find_last_vowel_Some (text v : str) :
  TCPServerEnhanced.find_last_vowel text = Some v ->
  exists pre c post,
    text = pre ++ c :: post /\
    In c TCPServerEnhanced.vowels /\
    (forall x, In x post -> ~ In x TCPServerEnhanced.vowels) /\
    v = [ascii_lower c].
Proof.
  unfold TCPServerEnhanced.find_last_vowel.
  destruct (find TCPServerEnhanced.is_vowel (rev text)) as [c|] eqn:E;
    [|discriminate].
  intros [= <-].
  destruct (find_split _ _ _ E) as (a & b & Hrev & Hc & Ha).
  exists (rev b), c, (rev a).
  assert (Htext : text = rev b ++ c :: rev a).
  { rewrite <- (rev_involutive text), Hrev, rev_app_distr. simpl.
    now rewrite <- app_assoc. }
  repeat split; try assumption.
  - now apply is_vowel_In.
  - intros x Hx Hv. apply in_rev in Hx. apply is_vowel_In in Hv.
    rewrite (Ha x Hx) in Hv. discriminate.
  - apply lower_basic_latin_char. now apply is_vowel_lt.
Qed.

End LastVowel.

(** [find_last_vowel] returns the lower-case form of the vowel that stands
    last in the text: it returns [v] exactly when the text splits into a
    part, one of [aeiouAEIOU], and a part without any of them, and [v] is
    that vowel in lower case. *)
Theorem find_last_vowel_is_last {U : UnicodeData} (text v : str) :
  TCPServerEnhanced.find_last_vowel text = Some v <->
  exists pre c post,
    text = pre ++ c :: post /\
    In c (str_of "aeiouAEIOU") /\
    (forall x, In x post -> ~ In x (str_of "aeiouAEIOU")) /\
    v = [ascii_lower c].
Proof.
  split; [apply find_last_vowel_Some|].
  unfold TCPServerEnhanced.find_last_vowel.
  intros (pre & c & post & -> & Hc & Hpost & ->).
  rewrite rev_app_distr. simpl. rewrite <- app_assoc. simpl.
  rewrite (find_first TCPServerEnhanced.is_vowel (rev post) (rev pre) c).
  - f_equal. apply lower_basic_latin_char.
    apply is_vowel_lt. now apply is_vowel_In.
  - now apply is_vowel_In.
  - intros x Hx. apply in_rev in Hx.
    destruct (TCPServerEnhanced.is_vowel x) eqn:Hv; [|reflexivity].
    exfalso. apply (Hpost x Hx). now apply is_vowel_In.
Qed.

Lemma find_last_vowel_is_last_witness :
  exists pre c post,
    str_of "Hola Mundo" = pre ++ c :: post /\
    In c (str_of "aeiouAEIOU") /\
    (forall x, In x post -> ~ In x (str_of "aeiouAEIOU")) /\
    str_of "o" = [ascii_lower c].
Proof.
  apply (proj1 (@find_last_vowel_is_last sample_ucd (str_of "Hola Mundo")
                  (str_of "o"))).
  reflexivity.
Defined.

Section VowelCount.
Context {U : UnicodeData} {F : FloatPow}.

Lemma count_vowel_occurrences_positive (text v : str) :
  TCPServerEnhanced.find_last_vowel text = Some v ->
  (1 <= TCPServerEnhanced.count_vowel_occurrences text (Some v))%nat.
Proof.
  intro H. apply find_last_vowel_Some in H
    as (pre & c & post & -> & Hc & _ & ->).
  assert (Hlt : (c < 128)%N) by (apply is_vowel_lt; now apply is_vowel_In).
  unfold TCPServerEnhanced.count_vowel_occurrences. cbn [is_empty].
  rewrite lower_basic_latin_char by now apply ascii_lower_lt.
  rewrite ascii_lower_idempotent.
  assert (Hin : In (ascii_lower c)
                  (filter (fun char => str_eqb [char] [ascii_lower c])
                     (PyStr.lower (pre ++ c :: post)))).
  { apply filter_In. split.
    - apply lower_from_In; [|assumption]. apply in_or_app. right. now left.
    - simpl. now rewrite N.eqb_refl. }
  destruct (filter _ _); [contradiction | simpl; lia].
Qed.

End VowelCount.

Section VowelAnswers.
Context {U : UnicodeData} {F : FloatPow}.

(** The lines the vowel server can send.  The "only spaces" error is not
    among them: the text it would be sent for is already trimmed and not
    empty. *)
Lemma vowel_answer_line (rx : received) (timestamp : str) (writable : bool) :
  let line := fst (Summary.vowel_answer rx timestamp writable) in
  line = ERR_INTERNAL \/ line = ERR_NO_DATA \/
  line = TCPServerEnhanced.ERR_NOT_LETTERS \/
  line = TCPServerEnhanced.ERR_NO_VOWEL \/
  exists data v,
    TCPServerEnhanced.find_last_vowel data = Some v /\
    line = count_line (TCPServerEnhanced.count_vowel_occurrences data (Some v)).
Proof.
  unfold Summary.vowel_answer. cbv zeta.
  destruct rx as [raw|]; [|now left].
  rewrite strip_idempotent.
  destruct (is_empty (PyStr.strip raw)); [now right; left|].
  destruct (TCPServerEnhanced.validate_text (PyStr.strip raw)); cbn [negb];
    [|now right; right; left].
  destruct (TCPServerEnhanced.find_last_vowel (PyStr.strip raw)) as [v|] eqn:Ev;
    [|now right; right; right; left].
  destruct (TCPServerEnhanced.falsy (Some v)); [now right; right; right; left|].
  destruct (TCPServerEnhanced.is_prime _); [|now left].
  right; right; right; right. exists (PyStr.strip raw), v. now split.
Qed.

Lemma filter_count_occ (l : str) (t : char) :
  List.length (filter (fun x => str_eqb [x] [t]) l) = count_occ N.eq_dec l t.
Proof.
  induction l as [|d l IH]; [reflexivity|].
  cbn [filter count_occ].
  change (str_eqb [d] [t]) with ((d =? t)%N && true). rewrite andb_true_r.
  destruct (N.eq_dec d t) as [E | E].
  - apply N.eqb_eq in E. rewrite E. cbn [List.length]. now rewrite IH.
  - apply N.eqb_neq in E. now rewrite E.
Qed.

End VowelAnswers.

(** Whenever the vowel server answers with a count, the count is at least
    one, whatever Unicode text was received: the vowel that is counted is
    one of [aeiouAEIOU], and those lower to themselves in any context. *)
Theorem vowel_count_at_least_one {U : UnicodeData} {F : FloatPow}
    (w : world) (n : nat) :
  sock_out (run TCPServerEnhanced.handle_client w) = sock_out w ++ [count_line n] ->
  (1 <= n)%nat.
Proof.
  rewrite handle_client_enhanced_run. cbv zeta. unfold served. cbn [sock_out].
  intro H. apply app_inv_head in H. injection H as H.
  destruct (vowel_answer_line (sock_in w) (clock w) (log_writable w))
    as [E | [E | [E | [E | (data & v & Hv & E)]]]];
    cbv zeta in E; rewrite E in H;
    try (symmetry in H; now apply count_line_head in H).
  apply count_line_injective in H. subst n.
  now apply count_vowel_occurrences_positive.
Qed.

Lemma vowel_count_at_least_one_witness : (1 <= 3)%nat.
Proof.
  apply (@vowel_count_at_least_one sample_ucd sample_pow
           (connection (str_of "Banana") [] true) 3).
  reflexivity.
Defined.

(** The vowel server never sends its "empty or only spaces" error: by the
    time that check is made the text is trimmed and known not to be
    empty.  A payload of white space alone is answered with the no-data
    error. *)
Theorem blank_error_never_sent {U : UnicodeData} {F : FloatPow} (w : world) :
  sock_out (run TCPServerEnhanced.handle_client w)
  <> sock_out w ++ [TCPServerEnhanced.ERR_BLANK].
Proof.
  rewrite handle_client_enhanced_run. cbv zeta. unfold served. cbn [sock_out].
  intro H. apply app_inv_head in H. injection H as H.
  destruct (vowel_answer_line (sock_in w) (clock w) (log_writable w))
    as [E | [E | [E | [E | (data & v & Hv & E)]]]];
    cbv zeta in E; rewrite E in H; try discriminate.
  now apply count_line_head in H.
Qed.

(** On Basic Latin text the vowel server counts what it is meant to: the
    occurrences of the last vowel, upper or lower case. *)
Theorem count_vowel_occurrences_basic_latin {U : UnicodeData}
    (text : str) (c : char) :
  basic_latin text = true ->
  TCPServerEnhanced.find_last_vowel text = Some [c] ->
  TCPServerEnhanced.count_vowel_occurrences text (Some [c])
  = count_occ N.eq_dec (map ascii_lower text) c.
Proof.
  intros Hbl Hv.
  apply find_last_vowel_Some in Hv as (pre & c0 & post & _ & Hc & _ & [= ->]).
  assert (Hlt : (c0 < 128)%N) by (apply is_vowel_lt; now apply is_vowel_In).
  unfold TCPServerEnhanced.count_vowel_occurrences. cbn [is_empty].
  rewrite (lower_basic_latin text Hbl).
  rewrite lower_basic_latin_char by now apply ascii_lower_lt.
  rewrite ascii_lower_idempotent. apply filter_count_occ.
Qed.

Lemma count_vowel_occurrences_basic_latin_witness :
  @TCPServerEnhanced.count_vowel_occurrences sample_ucd
    (str_of "Hola Mundo") (Some [111%N])
  = count_occ N.eq_dec (map ascii_lower (str_of "Hola Mundo")) 111%N.
Proof.
  apply (@count_vowel_occurrences_basic_latin sample_ucd
           (str_of "Hola Mundo") 111%N); reflexivity.
Defined.

(** ** Bytes that do not decode *)

Section CutCharacter.
Open Scope N_scope.

Ltac nlia := zify; Z.to_euclidean_division_equations; lia.

Lemma decode_lead_alone (b0 : ascii) :
  128 <= N_of_ascii b0 -> Utf8.decode (String b0 EmptyString) = None.
Proof.
  intro H. cbn [Utf8.decode]. cbv zeta.
  destruct (N.ltb_spec (N_of_ascii b0) 128); [lia|].
  repeat match goal with
         | |- context [(?a <? ?b)] => destruct (a <? b)
         end; reflexivity.
Qed.

Lemma decode_lead_one (b0 b1 : ascii) :
  224 <= N_of_ascii b0 ->
  Utf8.decode (String b0 (String b1 EmptyString)) = None.
Proof.
  intro H. cbn [Utf8.decode]. cbv zeta.
  destruct (N.ltb_spec (N_of_ascii b0) 128); [lia|].
  destruct (N.ltb_spec (N_of_ascii b0) 194); [lia|].
  destruct (N.ltb_spec (N_of_ascii b0) 224); [lia|].
  repeat match goal with
         | |- context [(?a <? ?b)] => destruct (a <? b)
         end; reflexivity.
Qed.

Lemma decode_lead_two (b0 b1 b2 : ascii) :
  240 <= N_of_ascii b0 ->
  Utf8.decode (String b0 (String b1 (String b2 EmptyString))) = None.
Proof.
  intro H. cbn [Utf8.decode]. cbv zeta.
  destruct (N.ltb_spec (N_of_ascii b0) 128); [lia|].
  destruct (N.ltb_spec (N_of_ascii b0) 194); [lia|].
  destruct (N.ltb_spec (N_of_ascii b0) 224); [lia|].
  destruct (N.ltb_spec (N_of_ascii b0) 240); [lia|].
  repeat match goal with
         | |- context [(?a <? ?b)] => destruct (a <? b)
         end; reflexivity.
Qed.

Lemma string_cons_inv (a b : ascii) (s t : string) :
  String a s = String b t -> a = b /\ s = t.
Proof. intros [= -> ->]. now split. Qed.

(** The first bytes of an encoded character, short of all of them, do not
    decode. *)
Lemma cut_character (c : char) (p q : string) :
  Utf8.encode_char c = Some (p ++ q)%string ->
  p <> EmptyString -> q <> EmptyString ->
  Utf8.decode p = None.
Proof.
  unfold Utf8.encode_char. intros H Hp Hq.
  destruct p as [|x0 p]; [contradiction|].
  destruct (N.ltb_spec c 128) as [H1|H1].
  { apply some_eq in H. cbn [String.append] in H. apply string_cons_inv in H as [_ H].
    destruct p; [now destruct q | discriminate]. }
  destruct (N.ltb_spec c 2048) as [H2|H2].
  { apply some_eq in H. cbn [String.append] in H. apply string_cons_inv in H as [H0 H].
    destruct p as [|x1 p].
    - apply decode_lead_alone. rewrite H0, byte_value by nlia. nlia.
    - cbn [String.append] in H. apply string_cons_inv in H as [_ H].
      destruct p; [now destruct q | discriminate]. }
  destruct (N.ltb_spec c 65536) as [H3|H3].
  { destruct (Utf8.is_surrogate c); [discriminate|].
    apply some_eq in H. cbn [String.append] in H. apply string_cons_inv in H as [H0 H].
    destruct p as [|x1 p].
    - apply decode_lead_alone. rewrite H0, byte_value by nlia. nlia.
    - cbn [String.append] in H. apply string_cons_inv in H as [_ H].
      destruct p as [|x2 p].
      + apply decode_lead_one. rewrite H0, byte_value by nlia. nlia.
      + cbn [String.append] in H. apply string_cons_inv in H as [_ H].
        destruct p; [now destruct q | discriminate]. }
  destruct (N.ltb_spec c 1114112) as [H4|H4]; [|discriminate].
  apply some_eq in H. cbn [String.append] in H. apply string_cons_inv in H as [H0 H].
  destruct p as [|x1 p].
  - apply decode_lead_alone. rewrite H0, byte_value by nlia. nlia.
  - cbn [String.append] in H. apply string_cons_inv in H as [_ H].
    destruct p as [|x2 p].
    + apply decode_lead_one. rewrite H0, byte_value by nlia. nlia.
    + cbn [String.append] in H. apply string_cons_inv in H as [_ H].
      destruct p as [|x3 p].
      * apply decode_lead_two. rewrite H0, byte_value by nlia. nlia.
      * cbn [String.append] in H. apply string_cons_inv in H as [_ H].
        destruct p; [now destruct q | discriminate].
Qed.

End CutCharacter.

(** A read that ends inside a multi-byte character -- as the one bounded
    read does when the buffer fills there -- yields bytes that do not
    decode, whatever text came before: either server answers with the
    internal-error line, and nothing is logged. *)
Theorem message_cut_inside_character {U : UnicodeData} {F : FloatPow}
    (s : str) (c : char) (enc p q : string) (w : world) :
  Utf8.encode s = Some enc ->
  Utf8.encode_char c = Some (p ++ q)%string ->
  p <> EmptyString -> q <> EmptyString ->
  Utf8.decode (enc ++ p) = None /\
  sock_out (run TCPServer.handle_client (arriving (enc ++ p) w))
  = sock_out w ++ [ERR_INTERNAL] /\
  sock_out (run TCPServerEnhanced.handle_client (arriving (enc ++ p) w))
  = sock_out w ++ [ERR_INTERNAL] /\
  log_file (run TCPServerEnhanced.handle_client (arriving (enc ++ p) w))
  = log_file w.
Proof.
  intros Hs Hc Hp Hq.
  assert (Hd : Utf8.decode (enc ++ p) = None).
  { rewrite (decode_encode_app s enc p Hs).
    now rewrite (cut_character c p q Hc Hp Hq). }
  split; [exact Hd|].
  rewrite handle_client_run, handle_client_enhanced_run. cbv zeta.
  unfold served, arriving, decoded.
  cbn [sock_in sock_out log_file log_writable clock].
  rewrite Hd. cbn. now rewrite app_nil_r.
Qed.

Lemma message_cut_inside_character_witness :
  Utf8.decode ("hol" ++ String (Utf8.byte 195) EmptyString) = None /\
  sock_out (run (@TCPServer.handle_client sample_ucd)
              (arriving ("hol" ++ String (Utf8.byte 195) EmptyString)
                 (connection [] [] true)))
  = [] ++ [ERR_INTERNAL] /\
  sock_out (run (@TCPServerEnhanced.handle_client sample_ucd sample_pow)
              (arriving ("hol" ++ String (Utf8.byte 195) EmptyString)
                 (connection [] [] true)))
  = [] ++ [ERR_INTERNAL] /\
  log_file (run (@TCPServerEnhanced.handle_client sample_ucd sample_pow)
              (arriving ("hol" ++ String (Utf8.byte 195) EmptyString)
                 (connection [] [] true)))
  = [].
Proof.
  apply (@message_cut_inside_character sample_ucd sample_pow
           (str_of "hol") 225%N "hol"
           (String (Utf8.byte 195) EmptyString)
           (String (Utf8.byte 161) EmptyString)
           (connection [] [] true)).
  - reflexivity.
  - reflexivity.
  - discriminate.
  - discriminate.
Defined.

(** ** The test client *)

Section ClientFacts.
Context {U : UnicodeData}.

(** A text that starts and ends with a character that is not white space
    is what [strip] leaves of it and any white space after it. *)
Lemma strip_trailing (c d : char) (mid ws : str) :
  isspace_char c = false -> isspace_char d = false ->
  forallb isspace_char ws = true ->
  PyStr.strip (((c :: mid) ++ [d]) ++ ws) = (c :: mid) ++ [d].
Proof.
  intros Hc Hd Hws.
  pose proof (strip_padding [] ws ((c :: mid) ++ [d]) eq_refl Hws) as H.
  cbn [app] in H. cbn [app]. rewrite H.
  unfold PyStr.strip, PyStr.lstrip. cbn [PyStr.dropwhile]. rewrite Hc.
  change (c :: mid ++ [d]) with ((c :: mid) ++ [d]).
  now apply rstrip_fixed.
Qed.

Lemma strip_trailing_one (c : char) (ws : str) :
  isspace_char c = false -> forallb isspace_char ws = true ->
  PyStr.strip (c :: ws) = [c].
Proof.
  intros Hc Hws.
  pose proof (strip_padding [] ws [c] eq_refl Hws) as H.
  cbn [app] in H. rewrite H.
  unfold PyStr.strip, PyStr.lstrip. cbn [PyStr.dropwhile]. rewrite Hc.
  now apply (rstrip_fixed []).
Qed.

Lemma digit_not_space (a : ascii) :
  is_digit a -> isspace_char (N_of_ascii a) = false.
Proof.
  unfold is_digit. intro H. rewrite basic_latin_space by lia.
  unfold ascii_isspace.
  destruct (N.leb_spec 9 (N_of_ascii a)), (N.leb_spec (N_of_ascii a) 13),
    (N.leb_spec 28 (N_of_ascii a)), (N.leb_spec (N_of_ascii a) 32);
    cbn; try reflexivity; lia.
Qed.

Lemma newline_is_space : isspace_char 10%N = true.
Proof. now rewrite basic_latin_space. Qed.

(** What the client makes of a count line: the digits. *)
Lemma strip_count_text (n : nat) :
  PyStr.strip (str_of (decimal n) ++ [10%N]) = str_of (decimal n).
Proof.
  pose proof (decimal_digits n) as Hd.
  pose proof (decimal_not_empty n) as Hne.
  unfold str_of.
  destruct (decimal n) as [|a s]; [contradiction|].
  cbn [list_ascii_of_string map] in *.
  inversion Hd as [|? ? Ha Hs]; subst.
  destruct (list_ascii_of_string s) as [|y l] eqn:E.
  - cbn [map app]. apply strip_trailing_one; [now apply digit_not_space|].
    cbn. now rewrite newline_is_space.
  - assert (Hnil : y :: l <> []) by discriminate.
    destruct (exists_last Hnil) as (l' & z & E').
    rewrite E' in *. rewrite map_app. cbn [map].
    apply Forall_app in Hs as [_ Hz]. inversion Hz as [|? ? Hz' _]; subst.
    apply (strip_trailing (N_of_ascii a) (N_of_ascii z)
             (map N_of_ascii l') [10%N]).
    + now apply digit_not_space.
    + now apply digit_not_space.
    + cbn. now rewrite newline_is_space.
Qed.

Lemma concat_one (line : string) :
  String.concat EmptyString [line] = line.
Proof. reflexivity. Qed.

End ClientFacts.

(** [test_tcp_server] returns [None] exactly when one of its steps raised
    -- connecting, encoding the message, sending, reading or decoding the
    reply -- and only on the way to returning a response does it close its
    socket: after a failure the socket stays open. *)
Theorem test_client_closes_only_on_success {U : UnicodeData}
    (message : str) (c : TestClient.client) :
  TestClient.closed c = false ->
  (fst (TestClient.test_tcp_server message c) = None <->
   TestClient.connects c = false \/ Utf8.encode message = None \/
   TestClient.sends c = false \/ TestClient.reads c = None \/
   exists got, TestClient.reads c = Some got /\ Utf8.decode got = None) /\
  (TestClient.closed (snd (TestClient.test_tcp_server message c)) = true <->
   fst (TestClient.test_tcp_server message c) <> None).
Proof.
  intro Hopen. unfold TestClient.test_tcp_server.
  destruct (TestClient.connects c) eqn:Hc;
    [|cbn; rewrite Hopen; intuition congruence].
  destruct (Utf8.encode message) as [bs|] eqn:He;
    [|cbn; rewrite Hopen; intuition congruence].
  destruct (TestClient.sends c) eqn:Hs;
    [|cbn; rewrite Hopen; intuition congruence].
  destruct (TestClient.reads c) as [got|] eqn:Hr;
    [|cbn; rewrite Hopen; intuition congruence].
  destruct (Utf8.decode got) as [text|] eqn:Hd; cbn.
  - split; [|intuition congruence].
    split; [discriminate|].
    intros [H | [H | [H | [H | (got' & H & H')]]]]; congruence.
  - rewrite Hopen. split; [|intuition congruence].
    split; [|reflexivity]. intros _. right; right; right; right.
    now exists got.
Qed.

Lemma test_client_closes_only_on_success_witness :
  (fst (@TestClient.test_tcp_server sample_ucd (str_of "hola")
          (TestClient.mkClient true true None [] false)) = None <->
   true = false \/ Utf8.encode (str_of "hola") = None \/
   true = false \/ @None string = None \/
   exists got, None = Some got /\ Utf8.decode got = None) /\
  (TestClient.closed
     (snd (@TestClient.test_tcp_server sample_ucd (str_of "hola")
             (TestClient.mkClient true true None [] false))) = true <->
   fst (@TestClient.test_tcp_server sample_ucd (str_of "hola")
          (TestClient.mkClient true true None [] false)) <> None).
Proof.
  apply (@test_client_closes_only_on_success sample_ucd (str_of "hola")
           (TestClient.mkClient true true None [] false)).
  reflexivity.
Defined.

(** Client and last-character server together: when the server's read
    returns the bytes the client sent and the client's read returns the
    line the server sent, [test_tcp_server] returns, for a message of
    letters, the count in decimal, and closes its socket. *)
Theorem test_client_receives_count {U : UnicodeData}
    (message : str) (bs : string) (w : world) (c : TestClient.client) :
  Utf8.encode message = Some bs ->
  sock_in w = decoded bs -> sock_out w = [] ->
  PyStr.strip message <> [] ->
  TCPServer.validate_text (PyStr.strip message) = true ->
  TestClient.connects c = true -> TestClient.sends c = true ->
  TestClient.reads c
  = Some (String.concat EmptyString (sock_out (run TCPServer.handle_client w))) ->
  TestClient.test_tcp_server message c
  = (Some (str_of (decimal (TCPServer.count_last_character (PyStr.strip message)))),
     TestClient.mkClient true true (TestClient.reads c)
       (TestClient.sent c ++ [bs]) true).
Proof.
  intros He Hin Hout Hne Hvalid Hc Hs Hr.
  rewrite handle_client_run in Hr. unfold served in Hr.
  cbn [sock_out] in Hr. rewrite Hout, Hin in Hr. cbn [app] in Hr.
  rewrite concat_one in Hr.
  pose proof (decode_encode_app message bs EmptyString He) as Hd.
  simpl in Hd. rewrite app_nil_r, append_empty in Hd.
  unfold decoded in Hr. rewrite Hd in Hr.
  unfold Summary.last_character_answer in Hr. cbv zeta in Hr.
  destruct (PyStr.strip message) as [|d data] eqn:Hdata; [contradiction|].
  cbn [is_empty] in Hr. rewrite Hvalid in Hr. cbn [negb] in Hr.
  unfold TestClient.test_tcp_server. rewrite Hc, He, Hs, Hr.
  rewrite decode_count_line, strip_count_text. reflexivity.
Qed.

Lemma test_client_receives_count_witness :
  @TestClient.test_tcp_server sample_ucd (str_of "banana")
    (TestClient.mkClient true true (Some (count_line 3)) [] false)
  = (Some (str_of (decimal
       (@TCPServer.count_last_character sample_ucd
          (@PyStr.strip sample_ucd (str_of "banana"))))),
     TestClient.mkClient true true (Some (count_line 3)) ["banana"%string] true).
Proof.
  apply (@test_client_receives_count sample_ucd (str_of "banana") "banana"
           (connection (str_of "banana") [] true)
           (TestClient.mkClient true true (Some (count_line 3)) [] false));
    try reflexivity.
  discriminate.
Defined.

(** ** [start] and the life of a server *)

Section AcceptLoops.
Variable Conn : Type.

Lemma accept_loop_threads (cs : list Conn) (rest : list (accepted Conn)) :
  TCPServerStart.accept_loop Conn (map Accepted cs ++ rest)
  = (map ThreadStarted cs ++ fst (TCPServerStart.accept_loop Conn rest),
     snd (TCPServerStart.accept_loop Conn rest)).
Proof.
  induction cs as [|c cs IH]; simpl.
  - now destruct (TCPServerStart.accept_loop Conn rest).
  - now rewrite IH.
Qed.

Lemma accept_loop_submits (cs : list Conn) (rest : list (accepted Conn)) :
  TCPServerEnhancedStart.accept_loop Conn (map Accepted cs ++ rest)
  = (map Submitted cs ++ fst (TCPServerEnhancedStart.accept_loop Conn rest),
     snd (TCPServerEnhancedStart.accept_loop Conn rest)).
Proof.
  induction cs as [|c cs IH]; simpl.
  - now destruct (TCPServerEnhancedStart.accept_loop Conn rest).
  - now rewrite IH.
Qed.

Lemma dispatched_app (xs ys : list (event Conn)) :
  dispatched (xs ++ ys) = dispatched xs ++ dispatched ys.
Proof.
  induction xs as [|x xs IH]; simpl; [reflexivity|].
  destruct x; simpl; now rewrite IH.
Qed.

Lemma dispatched_submitted (cs : list Conn) :
  dispatched (map Submitted cs) = cs.
Proof. induction cs as [|c cs IH]; simpl; [reflexivity | now rewrite IH]. Qed.

Lemma dispatched_until_raise (cs : list Conn) (e : raised)
    (after : list (accepted Conn)) :
  dispatched (fst (TCPServerEnhancedStart.start Conn Listening
                     (map Accepted cs ++ AcceptRaised e :: after))) = cs.
Proof.
  unfold TCPServerEnhancedStart.start. rewrite accept_loop_submits.
  cbn [fst TCPServerEnhancedStart.accept_loop].
  rewrite dispatched_app, dispatched_submitted. simpl. apply app_nil_r.
Qed.

End AcceptLoops.

(** The last-character server's [start]: every connection accepted gets a
    thread of its own, in the order of arrival; the first [accept] that
    raises, [KeyboardInterrupt] or not, ends the loop, the listening socket
    is closed and [start] returns, whatever would have arrived later.
    While [accept] raises nothing [start] does not return and the socket
    stays open. *)
Theorem start_threads_until_accept_raises (Conn : Type) (cs : list Conn) :
  (forall (e : raised) (after : list (accepted Conn)),
     TCPServerStart.start Conn Listening
       (map Accepted cs ++ AcceptRaised e :: after)
     = (map ThreadStarted cs ++ [ServerSocketClosed], true)) /\
  TCPServerStart.start Conn Listening (map Accepted cs)
  = (map ThreadStarted cs, false).
Proof.
  unfold TCPServerStart.start. split.
  - intros e after. now rewrite accept_loop_threads.
  - rewrite <- (app_nil_r (map Accepted cs)), accept_loop_threads.
    simpl. now rewrite !app_nil_r.
Qed.

(** The vowel server's [start]: every connection accepted is submitted to
    the pool, in the order of arrival; when [accept] raises the pool is
    shut down, waiting for its handlers, before the listening socket is
    closed.  When the set-up fails the pool, created first, is shut down
    all the same, and the socket is closed if it was created. *)
Theorem start_shuts_pool_then_socket (Conn : Type) (cs : list Conn)
    (e : raised) (after accepts : list (accepted Conn)) :
  TCPServerEnhancedStart.start Conn Listening
    (map Accepted cs ++ AcceptRaised e :: after)
  = (map Submitted cs ++ [PoolShutDown; ServerSocketClosed], true) /\
  TCPServerEnhancedStart.start Conn Listening (map Accepted cs)
  = (map Submitted cs, false) /\
  TCPServerEnhancedStart.start Conn (NoSocket e) accepts
  = ([PoolShutDown], true) /\
  TCPServerEnhancedStart.start Conn (NotListening e) accepts
  = ([PoolShutDown; ServerSocketClosed], true).
Proof.
  unfold TCPServerEnhancedStart.start. repeat split.
  - now rewrite accept_loop_submits.
  - rewrite <- (app_nil_r (map Accepted cs)), accept_loop_submits.
    simpl. now rewrite !app_nil_r.
Qed.

Section Lifecycle.
Context {U : UnicodeData} {F : FloatPow}.

Lemma handle_run (a : arrival) (log : str) :
  OneWorker.handle a log
  = mkWorld (payload a)
      [fst (Summary.vowel_answer (payload a) (stamp a) (disk_ok a))] true
      (log ++ snd (Summary.vowel_answer (payload a) (stamp a) (disk_ok a)))
      (disk_ok a) (stamp a).
Proof.
  unfold OneWorker.handle. rewrite handle_client_enhanced_run.
  reflexivity.
Qed.

Lemma serve_run (arrivals : list arrival) (log : str) :
  OneWorker.serve arrivals log
  = (map (fun a => sock_out (OneWorker.handle a [])) arrivals,
     log ++ List.concat (map (fun a => log_file (OneWorker.handle a [])) arrivals)).
Proof.
  revert log. induction arrivals as [|a rest IH]; intro log.
  - simpl. now rewrite app_nil_r.
  - cbn [OneWorker.serve map List.concat]. cbv zeta. rewrite IH.
    rewrite !handle_run. cbn [sock_out log_file app].
    now rewrite app_assoc.
Qed.

Lemma serve_app (xs ys : list arrival) (log : str) :
  OneWorker.serve (xs ++ ys) log
  = (fst (OneWorker.serve xs log)
       ++ fst (OneWorker.serve ys (snd (OneWorker.serve xs log))),
     snd (OneWorker.serve ys (snd (OneWorker.serve xs log)))).
Proof.
  rewrite !serve_run. cbn [fst snd]. rewrite !map_app, List.concat_app.
  now rewrite app_assoc.
Qed.

End Lifecycle.

(** With one worker the handlers run one after the other, and then: what
    a connection is sent depends on that connection alone, not on the log
    file or on the connections before it; and the log file at the end is
    the log file at the start, untouched, followed by what each
    connection's handler writes, in the order of submission. *)
Theorem one_worker_appends_in_order {U : UnicodeData} {F : FloatPow}
    (arrivals : list arrival) (log : str) :
  OneWorker.serve arrivals log
  = (map (fun a => sock_out (OneWorker.handle a [])) arrivals,
     log ++ List.concat (map (fun a => log_file (OneWorker.handle a [])) arrivals)).
Proof. apply serve_run. Qed.

(** Stopping the vowel server and starting it again on the same log file
    loses nothing: the header is written once, when the file is created;
    the second server finds the file and appends to it; and the replies and
    the log file are those of one server that had received all the
    connections. *)
Theorem restart_keeps_log {U : UnicodeData} {F : FloatPow}
    (creatable creatable' : bool) (file : option str)
    (cs cs' : list arrival) (e e' : raised)
    (after after' : list (accepted arrival))
    (replies replies' : list (list string)) (log log' : str) :
  OneWorker.session creatable file Listening
    (map Accepted cs ++ AcceptRaised e :: after)
  = Some (replies, Some log) ->
  OneWorker.session creatable' (Some log) Listening
    (map Accepted cs' ++ AcceptRaised e' :: after')
  = Some (replies', Some log') ->
  OneWorker.session creatable file Listening
    (map Accepted (cs ++ cs') ++ AcceptRaised e' :: after')
  = Some (replies ++ replies', Some log') /\
  exists records,
    log' = match file with
           | Some text => text
           | None => TCPServerEnhancedStart.header
           end ++ records.
Proof.
  unfold OneWorker.session. rewrite !dispatched_until_raise.
  cbn [TCPServerEnhancedStart._initialize_log_file].
  destruct (TCPServerEnhancedStart._initialize_log_file creatable file)
    as [[text|]|] eqn:Hinit; try discriminate.
  rewrite serve_app.
  destruct (OneWorker.serve cs text) as [r1 l1] eqn:H1.
  intros [= <- <-].
  destruct (OneWorker.serve cs' l1) as [r2 l2] eqn:H2.
  intros [= <- <-]. cbn [fst snd]. rewrite H2.
  split; [reflexivity|].
  rewrite serve_run in H1, H2.
  injection H1 as _ <-. injection H2 as _ <-.
  eexists. rewrite <- app_assoc.
  destruct file as [t|]; cbn in Hinit.
  - injection Hinit as <-. reflexivity.
  - destruct creatable; [|discriminate]. injection Hinit as <-. reflexivity.
Qed.

Lemma restart_keeps_log_witness :
  @OneWorker.session sample_ucd sample_pow true None Listening
    (map Accepted
       ([mkArrival (Received (str_of "hola")) (str_of "10:30:00") true] ++
        [mkArrival (Received (str_of "mundo")) (str_of "11:45:00") true])
     ++ AcceptRaised OtherException :: [])
  = Some
      (fst (@OneWorker.serve sample_ucd sample_pow
              [mkArrival (Received (str_of "hola")) (str_of "10:30:00") true]
              TCPServerEnhancedStart.header)
       ++
       fst (@OneWorker.serve sample_ucd sample_pow
              [mkArrival (Received (str_of "mundo")) (str_of "11:45:00") true]
              (snd (@OneWorker.serve sample_ucd sample_pow
                      [mkArrival (Received (str_of "hola"))
                         (str_of "10:30:00") true]
                      TCPServerEnhancedStart.header))),
       Some
         (snd (@OneWorker.serve sample_ucd sample_pow
                 [mkArrival (Received (str_of "mundo")) (str_of "11:45:00") true]
                 (snd (@OneWorker.serve sample_ucd sample_pow
                         [mkArrival (Received (str_of "hola"))
                            (str_of "10:30:00") true]
                         TCPServerEnhancedStart.header))))) /\
  exists records,
    snd (@OneWorker.serve sample_ucd sample_pow
           [mkArrival (Received (str_of "mundo")) (str_of "11:45:00") true]
           (snd (@OneWorker.serve sample_ucd sample_pow
                   [mkArrival (Received (str_of "hola"))
                      (str_of "10:30:00") true]
                   TCPServerEnhancedStart.header)))
    = TCPServerEnhancedStart.header ++ records.
Proof.
  apply (@restart_keeps_log sample_ucd sample_pow true false None
           [mkArrival (Received (str_of "hola")) (str_of "10:30:00") true]
           [mkArrival (Received (str_of "mundo")) (str_of "11:45:00") true]
           KeyboardInterrupt OtherException [] []
           (fst (@OneWorker.serve sample_ucd sample_pow
                   [mkArrival (Received (str_of "hola")) (str_of "10:30:00") true]
                   TCPServerEnhancedStart.header))
           _
           (snd (@OneWorker.serve sample_ucd sample_pow
                   [mkArrival (Received (str_of "hola")) (str_of "10:30:00") true]
                   TCPServerEnhancedStart.header))
           _);
    vm_compute; reflexivity.
Defined.

(** ** The handlers on the wire

    What the specification states about one connection where the read is
    cut, or a call of the socket or of the log file fails. *)

Section WireRuns.
Context {U : UnicodeData} {F : FloatPow}.

Lemma first_line_count (n : nat) :
  WireSummary.first_line (count_line n) = Some (count_line n).
Proof.
  unfold WireSummary.first_line.
  destruct (String.eqb_spec (count_line n) ERR_INTERNAL) as [E|]; [|reflexivity].
  exfalso. exact (count_line_head n _ E).
Qed.

Lemma stored_nothing (space : option nat) :
  WireSummary.stored [] space = ([], space).
Proof.
  destruct space as [k|]; [|reflexivity].
  unfold WireSummary.stored. now rewrite firstn_nil, Nat.sub_0_r.
Qed.

Ltac wire_cases faults :=
  destruct faults as [|[] [|[] ?]]; simpl;
  rewrite ?app_nil_r, <- ?app_assoc; split; (reflexivity || discriminate).

Lemma handle_client_on_wire (w : Wire.world) :
  run TCPServerOnWire.handle_client w
  = WireSummary.served (Summary.last_character_answer (heard 1024 w)) [] w /\
  fst (TCPServerOnWire.handle_client w) <> Raised.
Proof.
  destruct w as [got faults sendings shut log can_open space clk].
  unfold run, TCPServerOnWire.handle_client, WireSummary.served, heard,
    try_finally, try_except, bind, Wire.recv, Wire.decode, decoded,
    Wire.sendall, Wire.close, ret.
  rewrite stored_nothing.
  cbn [Wire.arrived Wire.send_faults Wire.calls Wire.closed Wire.file
       Wire.openable Wire.room Wire.now].
  destruct got as [got|]; cbv zeta; [|wire_cases faults].
  destruct (Utf8.decode (substring 0 1024 got)) as [raw|];
    [|wire_cases faults].
  unfold Summary.last_character_answer. cbv beta iota zeta.
  destruct (is_empty (PyStr.strip raw)); [wire_cases faults|].
  destruct (TCPServer.validate_text (PyStr.strip raw)); [|wire_cases faults].
  cbn [negb]. rewrite first_line_count. wire_cases faults.
Qed.

Lemma logged_nothing (w : Wire.world) : WireSummary.logged [] w = w.
Proof.
  destruct w. unfold WireSummary.logged. rewrite stored_nothing.
  cbn. now rewrite app_nil_r.
Qed.

Lemma logged_logged (a b : str) (w : Wire.world) :
  WireSummary.fits a (Wire.room w) = true ->
  WireSummary.logged b (WireSummary.logged a w) = WireSummary.logged (a ++ b) w.
Proof.
  destruct w as [got faults sendings shut log can_open [k|] clk];
    unfold WireSummary.logged, WireSummary.fits, WireSummary.stored; cbn;
    intro Hfits.
  - apply Nat.leb_le in Hfits.
    rewrite firstn_app, (firstn_all2 a) by exact Hfits.
    rewrite length_app, <- !app_assoc. do 2 f_equal. lia.
  - now rewrite <- app_assoc.
Qed.

Lemma logged_overflow (a b : str) (w : Wire.world) :
  WireSummary.fits a (Wire.room w) = false ->
  WireSummary.logged (a ++ b) w = WireSummary.logged a w.
Proof.
  destruct w as [got faults sendings shut log can_open [k|] clk];
    unfold WireSummary.logged, WireSummary.fits, WireSummary.stored; cbn;
    intro Hfits; [|discriminate].
  apply Nat.leb_gt in Hfits.
  rewrite firstn_app, length_app.
  replace (k - List.length a)%nat with 0%nat by lia.
  rewrite firstn_0, app_nil_r. do 2 f_equal. lia.
Qed.

Lemma write_run (s : str) (w : Wire.world) :
  Wire.write s w
  = (if WireSummary.fits s (Wire.room w) then Normal tt else Raised,
     WireSummary.logged s w).
Proof.
  destruct w as [got faults sendings shut log can_open [k|] clk];
    unfold Wire.write, WireSummary.logged, WireSummary.fits,
      WireSummary.stored; cbn; [|reflexivity].
  destruct (Nat.leb_spec (List.length s) k) as [Hle|Hgt].
  - now rewrite firstn_all2.
  - do 3 f_equal. lia.
Qed.

Lemma fits_app (a b : str) (w : Wire.world) :
  WireSummary.fits a (Wire.room w) = true ->
  WireSummary.fits b (Wire.room (WireSummary.logged a w))
  = WireSummary.fits (a ++ b) (Wire.room w).
Proof.
  destruct w as [got faults sendings shut log can_open [k|] clk];
    unfold WireSummary.logged, WireSummary.fits, WireSummary.stored; cbn;
    intro Hfits; [|reflexivity].
  apply Nat.leb_le in Hfits. rewrite length_app.
  destruct (Nat.leb_spec (List.length b) (k - List.length a));
    destruct (Nat.leb_spec (List.length a + List.length b) k);
    (reflexivity || lia).
Qed.

Lemma fits_prefix (a b : str) (space : option nat) :
  WireSummary.fits a space = false -> WireSummary.fits (a ++ b) space = false.
Proof.
  destruct space as [k|]; unfold WireSummary.fits; [|discriminate].
  rewrite length_app. intro H. apply Nat.leb_gt in H. apply Nat.leb_gt. lia.
Qed.

Lemma writes_then_run (chunks : list str) (k : ST Wire.world unit)
    (w : Wire.world) :
  WireSummary.writes_then chunks k w
  = if WireSummary.fits (List.concat chunks) (Wire.room w)
    then k (WireSummary.logged (List.concat chunks) w)
    else (Raised, WireSummary.logged (List.concat chunks) w).
Proof.
  revert w. induction chunks as [|c rest IH]; intro w.
  - cbn [List.concat]. rewrite logged_nothing.
    destruct (Wire.room w); reflexivity.
  - cbn [WireSummary.writes_then fold_right List.concat].
    unfold bind. rewrite write_run.
    destruct (WireSummary.fits c (Wire.room w)) eqn:Hc.
    + change (fold_right _ k rest) with (WireSummary.writes_then rest k).
      rewrite IH, fits_app, logged_logged by exact Hc. reflexivity.
    + now rewrite fits_prefix, logged_overflow.
Qed.

Lemma save_to_log_on_wire (timestamp message : str) (count : nat)
    (is_prime_result : str) (last_vowel : option str) (w : Wire.world) :
  TCPServerEnhancedOnWire.save_to_log timestamp message count is_prime_result
    last_vowel w
  = (Normal tt,
     WireSummary.logged
       (if Wire.openable w
        then Summary.log_record timestamp message count is_prime_result
               last_vowel
        else []) w).
Proof.
  unfold TCPServerEnhancedOnWire.save_to_log, try_except, bind at 1,
    Wire.open_append.
  destruct (Wire.openable w); [|now rewrite logged_nothing].
  match goal with
  | |- context [bind (Wire.write ?c1) (fun _ => bind (Wire.write ?c2)
         (fun _ => bind (Wire.write ?c3) (fun _ => bind (Wire.write ?c4)
         (fun _ => bind (Wire.write ?c5) (fun _ => Wire.write ?c6)))))] =>
      change (bind (Wire.write c1) (fun _ => bind (Wire.write c2)
         (fun _ => bind (Wire.write c3) (fun _ => bind (Wire.write c4)
         (fun _ => bind (Wire.write c5) (fun _ => Wire.write c6))))))
        with (WireSummary.writes_then [c1; c2; c3; c4; c5] (Wire.write c6))
  end.
  rewrite writes_then_run. unfold Summary.log_record.
  cbn [List.concat]. rewrite app_nil_r.
  match goal with
  | |- context [WireSummary.fits ?t (Wire.room w)] =>
      destruct (WireSummary.fits t (Wire.room w)) eqn:Hfits
  end.
  - rewrite write_run, fits_app, logged_logged by exact Hfits.
    rewrite <- !app_assoc.
    match goal with
    | |- context [WireSummary.fits ?t (Wire.room w)] =>
        destruct (WireSummary.fits t (Wire.room w))
    end; reflexivity.
  - unfold ret. f_equal.
    match type of Hfits with
    | WireSummary.fits ?t _ = false =>
        rewrite <- (logged_overflow t
                      (repeat 45%N 80 ++ TCPServerEnhanced.nl ++
                       TCPServerEnhanced.nl) w Hfits)
    end.
    now rewrite <- !app_assoc.
Qed.

Lemma handle_client_enhanced_on_wire (w : Wire.world) :
  let a := Summary.vowel_answer (heard 4096 w) (Wire.now w) (Wire.openable w) in
  run TCPServerEnhancedOnWire.handle_client w
  = WireSummary.served (fst a) (snd a) w /\
  fst (TCPServerEnhancedOnWire.handle_client w) <> Raised.
Proof.
  destruct w as [got faults sendings shut log can_open space clk].
  unfold run, TCPServerEnhancedOnWire.handle_client, WireSummary.served, heard,
    try_finally, try_except, bind, Wire.recv, Wire.decode, decoded,
    Wire.sendall, Wire.close, Wire.strftime_now,
    TCPServerEnhancedOnWire.is_prime, ret.
  cbn [Wire.arrived Wire.send_faults Wire.calls Wire.closed Wire.file
       Wire.openable Wire.room Wire.now].
  cbv zeta.
  destruct got as [got|]; cbv beta iota zeta;
    [|cbn [fst snd]; rewrite stored_nothing; wire_cases faults].
  destruct (Utf8.decode (substring 0 4096 got)) as [raw|];
    [|cbn [Summary.vowel_answer fst snd]; rewrite stored_nothing;
      wire_cases faults].
  unfold Summary.vowel_answer. cbv beta iota zeta.
  destruct (is_empty (PyStr.strip raw));
    [cbn [fst snd]; rewrite stored_nothing; wire_cases faults|].
  destruct (TCPServerEnhanced.validate_text (PyStr.strip raw));
    [|cbn [fst snd negb]; rewrite stored_nothing; wire_cases faults].
  cbn [negb].
  destruct (is_empty (PyStr.strip (PyStr.strip raw)));
    [cbn [fst snd]; rewrite stored_nothing; wire_cases faults|].
  destruct (TCPServerEnhanced.falsy _);
    [cbn [fst snd]; rewrite stored_nothing; wire_cases faults|].
  destruct (TCPServerEnhanced.is_prime _) as [prime|];
    [|cbn [fst snd]; rewrite stored_nothing; wire_cases faults].
  cbn -[TCPServerEnhancedOnWire.save_to_log WireSummary.stored
        WireSummary.first_line WireSummary.transmit count_line
        Summary.log_record].
  rewrite save_to_log_on_wire.
  unfold WireSummary.logged, Summary.verdict.
  cbn [fst snd Wire.arrived Wire.send_faults Wire.calls Wire.closed Wire.file
       Wire.openable Wire.room Wire.now].
  rewrite first_line_count.
  destruct (WireSummary.stored _ space) as [kept left].
  wire_cases faults.
Qed.

Lemma substring_all (n : nat) (s : string) :
  (String.length s <= n)%nat -> substring 0 n s = s.
Proof.
  revert n. induction s as [|b s IH]; intros [|n] H; simpl in *;
    try reflexivity; try lia.
  f_equal. apply IH. lia.
Qed.

Lemma substring_length (n : nat) (s : string) :
  (String.length (substring 0 n s) <= n)%nat.
Proof.
  revert n. induction s as [|b s IH]; intros [|n]; simpl; try lia.
  specialize (IH n). lia.
Qed.

Lemma decode_length_bounded (n : nat) (bs : string) (s : str) :
  (String.length bs <= n)%nat ->
  Utf8.decode bs = Some s -> (List.length s <= String.length bs)%nat.
Proof.
  revert bs s. induction n as [|n IH]; intros bs s Hn H.
  - destruct bs; [|simpl in Hn; lia].
    simpl in H. apply some_eq in H. subst s. simpl. lia.
  - destruct bs as [|b0 r0].
    + simpl in H. apply some_eq in H. subst s. simpl. lia.
    + apply decode_inv in H as (c & b & r & s' & _ & _ & Hr & -> & Hlt).
      apply IH in Hr; [|simpl in *; lia]. simpl in *. lia.
Qed.

Lemma heard_length (bufsize : nat) (w : Wire.world) (raw : str) :
  heard bufsize w = Received raw -> (List.length raw <= bufsize)%nat.
Proof.
  unfold heard, decoded. destruct (Wire.arrived w) as [got|]; [|discriminate].
  destruct (Utf8.decode (substring 0 bufsize got)) as [text|] eqn:Hd;
    [|discriminate].
  intros [= <-].
  apply (decode_length_bounded _ _ _ (Nat.le_refl _)) in Hd.
  pose proof (substring_length bufsize got). lia.
Qed.

Lemma encode_app (a b : str) :
  Utf8.encode (a ++ b)
  = match Utf8.encode a, Utf8.encode b with
    | Some x, Some y => Some (x ++ y)%string
    | _, _ => None
    end.
Proof.
  induction a as [|c a IH]; simpl.
  - now destruct (Utf8.encode b).
  - rewrite IH. destruct (Utf8.encode_char c) as [x|]; [|reflexivity].
    destruct (Utf8.encode a) as [y|]; [|reflexivity].
    destruct (Utf8.encode b) as [z|]; [|reflexivity].
    now rewrite append_assoc.
Qed.

Lemma decode_encoded (s : str) (bs : string) :
  Utf8.encode s = Some bs -> Utf8.decode bs = Some s.
Proof.
  intro H. pose proof (decode_encode_app s bs EmptyString H) as E.
  simpl in E. now rewrite app_nil_r, append_empty in E.
Qed.

Lemma transmit_delivered (line : string) (faults : list bool) :
  hd false faults = false ->
  WireSummary.transmit (WireSummary.first_line line) faults
  = ([Sent line], tl faults).
Proof.
  unfold WireSummary.first_line.
  destruct (String.eqb_spec line ERR_INTERNAL) as [->|_];
    destruct faults as [|[] later]; simpl; intro H;
    (reflexivity || discriminate).
Qed.

Lemma vowel_answer_analysed (raw timestamp : str) (writable : bool) :
  (List.length raw <= 4096)%nat ->
  PyStr.strip raw <> [] ->
  TCPServerEnhanced.validate_text (PyStr.strip raw) = true ->
  (exists c, In c (PyStr.strip raw) /\ In c TCPServerEnhanced.vowels) ->
  exists prime,
    TCPServerEnhanced.is_prime
      (Z.of_nat (TCPServerEnhanced.count_vowel_occurrences (PyStr.strip raw)
                   (TCPServerEnhanced.find_last_vowel (PyStr.strip raw))))
    = Some prime /\
    Summary.vowel_answer (Received raw) timestamp writable
    = (count_line (TCPServerEnhanced.count_vowel_occurrences (PyStr.strip raw)
                     (TCPServerEnhanced.find_last_vowel (PyStr.strip raw))),
       if writable
       then Summary.log_record timestamp (PyStr.strip raw)
              (TCPServerEnhanced.count_vowel_occurrences (PyStr.strip raw)
                 (TCPServerEnhanced.find_last_vowel (PyStr.strip raw)))
              (Summary.verdict prime)
              (TCPServerEnhanced.find_last_vowel (PyStr.strip raw))
       else []).
Proof.
  intros Hlen Hne Hvalid (c & Hc & Hv).
  unfold Summary.vowel_answer. cbv zeta. rewrite strip_idempotent.
  destruct (PyStr.strip raw) as [|d data] eqn:Hdata; [contradiction|].
  cbn [is_empty]. rewrite Hvalid. cbn [negb].
  destruct (TCPServerEnhanced.falsy
              (TCPServerEnhanced.find_last_vowel (d :: data))) eqn:Hf.
  { exfalso. apply falsy_find_last_vowel in Hf.
    rewrite find_last_vowel_None in Hf. exact (Hf c Hc Hv). }
  destruct (is_prime_correct
              (Z.of_nat (TCPServerEnhanced.count_vowel_occurrences (d :: data)
                 (TCPServerEnhanced.find_last_vowel (d :: data)))))
    as (prime & Hp & _).
  { pose proof (count_vowel_occurrences_le (d :: data)
                  (TCPServerEnhanced.find_last_vowel (d :: data))) as Hle.
    pose proof (strip_length raw) as Hs. rewrite Hdata in Hs.
    unfold float_exact_bound. split; [lia|].
    apply Z.le_lt_trans with 12288%Z; [lia | reflexivity]. }
  exists prime. now rewrite Hp.
Qed.

Lemma vowel_answer_failed (raw timestamp : str) (writable : bool) :
  PyStr.strip raw = [] \/
  TCPServerEnhanced.validate_text (PyStr.strip raw) = false \/
  (forall c, In c (PyStr.strip raw) -> ~ In c TCPServerEnhanced.vowels) ->
  snd (Summary.vowel_answer (Received raw) timestamp writable) = [].
Proof.
  intro Hcase. unfold Summary.vowel_answer. cbv zeta.
  rewrite strip_idempotent.
  destruct (PyStr.strip raw) as [|d data] eqn:Hdata; [reflexivity|].
  cbn [is_empty].
  destruct (TCPServerEnhanced.validate_text (d :: data)) eqn:Hvalid;
    [|reflexivity].
  cbn [negb].
  destruct (TCPServerEnhanced.falsy
              (TCPServerEnhanced.find_last_vowel (d :: data))) eqn:Hf;
    [reflexivity|].
  destruct Hcase as [H | [H | H]]; try discriminate.
  apply find_last_vowel_None in H. apply falsy_find_last_vowel in H.
  congruence.
Qed.

End WireRuns.

Section WireFacts.
Context {U : UnicodeData} {F : FloatPow}.


Lemma served_calls (line : string) (text : str) (w : Wire.world) :
  Wire.calls (WireSummary.served line text w)
  = Wire.calls w
    ++ fst (WireSummary.transmit (WireSummary.first_line line)
              (Wire.send_faults w)).
Proof.
  unfold WireSummary.served.
  destruct (WireSummary.transmit _ _), (WireSummary.stored _ _). reflexivity.
Qed.

Lemma served_file (line : string) (text : str) (w : Wire.world) :
  Wire.file (WireSummary.served line text w)
  = Wire.file w ++ fst (WireSummary.stored text (Wire.room w)).
Proof.
  unfold WireSummary.served.
  destruct (WireSummary.transmit _ _), (WireSummary.stored _ _). reflexivity.
Qed.


Lemma served_delivered (line : string) (text : str) (w : Wire.world) :
  hd false (Wire.send_faults w) = false ->
  Wire.calls (WireSummary.served line text w) = Wire.calls w ++ [Sent line].
Proof.
  intro H. now rewrite served_calls, transmit_delivered.
Qed.

Lemma served_refused (line : string) (text : str) (w : Wire.world)
    (later : list bool) :
  WireSummary.first_line line = Some line ->
  Wire.send_faults w = true :: later ->
  Wire.calls (WireSummary.served line text w)
  = Wire.calls w ++
    [SendRaised line;
     if hd false later then SendRaised ERR_INTERNAL else Sent ERR_INTERNAL].
Proof.
  intros Hl Hf. rewrite served_calls, Hl, Hf.
  destruct later as [|[] later']; reflexivity.
Qed.

End WireFacts.


(** C3 (amended).  The vowel server on the wire.  A message that is
    analysed -- the bytes of the one read decode, the text is not empty
    once trimmed, it has only letters and white space and a vowel -- gets
    exactly one record when the log file opens and the disk takes the
    record; nothing when the file does not open; the part the disk takes
    when that is not all.  The count is sent after that: it is sent when
    [sendall] does not raise, and when it raises the internal-error line
    follows with the record already written.  Nothing is appended when the
    read or the decoding fails or the message is empty, has another
    character or has no vowel. *)
Theorem one_record_when_log_takes_it {U : UnicodeData} {F : FloatPow}
    (w : Wire.world) :
  (forall got raw,
     Wire.arrived w = Some got ->
     Utf8.decode (substring 0 4096 got) = Some raw ->
     PyStr.strip raw <> [] ->
     TCPServerEnhanced.validate_text (PyStr.strip raw) = true ->
     (exists c, In c (PyStr.strip raw) /\ In c TCPServerEnhanced.vowels) ->
     exists prime record,
       TCPServerEnhanced.is_prime
         (Z.of_nat (TCPServerEnhanced.count_vowel_occurrences (PyStr.strip raw)
                      (TCPServerEnhanced.find_last_vowel (PyStr.strip raw))))
       = Some prime /\
       record
       = Summary.log_record (Wire.now w) (PyStr.strip raw)
           (TCPServerEnhanced.count_vowel_occurrences (PyStr.strip raw)
              (TCPServerEnhanced.find_last_vowel (PyStr.strip raw)))
           (Summary.verdict prime)
           (TCPServerEnhanced.find_last_vowel (PyStr.strip raw)) /\
       (Wire.openable w = true ->
        (forall k, Wire.room w = Some k -> (List.length record <= k)%nat) ->
        Wire.file (run TCPServerEnhancedOnWire.handle_client w)
        = Wire.file w ++ record) /\
       (Wire.openable w = false ->
        Wire.file (run TCPServerEnhancedOnWire.handle_client w) = Wire.file w) /\
       (forall k,
          Wire.openable w = true -> Wire.room w = Some k ->
          (k < List.length record)%nat ->
          Wire.file (run TCPServerEnhancedOnWire.handle_client w)
          = Wire.file w ++ firstn k record) /\
       (hd false (Wire.send_faults w) = false ->
        Wire.calls (run TCPServerEnhancedOnWire.handle_client w)
        = Wire.calls w ++
          [Sent (count_line
                   (TCPServerEnhanced.count_vowel_occurrences (PyStr.strip raw)
                      (TCPServerEnhanced.find_last_vowel (PyStr.strip raw))))]) /\
       (forall later,
          Wire.send_faults w = true :: later ->
          Wire.calls (run TCPServerEnhancedOnWire.handle_client w)
          = Wire.calls w ++
            [SendRaised
               (count_line
                  (TCPServerEnhanced.count_vowel_occurrences (PyStr.strip raw)
                     (TCPServerEnhanced.find_last_vowel (PyStr.strip raw))));
             if hd false later
             then SendRaised ERR_INTERNAL else Sent ERR_INTERNAL])) /\
  (Wire.arrived w = None \/
   (exists got,
      Wire.arrived w = Some got /\
      Utf8.decode (substring 0 4096 got) = None) \/
   (exists got raw,
      Wire.arrived w = Some got /\
      Utf8.decode (substring 0 4096 got) = Some raw /\
      (PyStr.strip raw = [] \/
       TCPServerEnhanced.validate_text (PyStr.strip raw) = false \/
       forall c, In c (PyStr.strip raw) -> ~ In c TCPServerEnhanced.vowels)) ->
   Wire.file (run TCPServerEnhancedOnWire.handle_client w) = Wire.file w).
Proof.
  destruct (handle_client_enhanced_on_wire w) as [E _]. cbv zeta in E.
  rewrite E. clear E. split.
  - intros got raw Hgot Hraw Hne Hvalid Hvowel.
    assert (Hheard : heard 4096 w = Received raw).
    { unfold heard, decoded. now rewrite Hgot, Hraw. }
    destruct (vowel_answer_analysed raw (Wire.now w) (Wire.openable w)
                (heard_length _ _ _ Hheard) Hne Hvalid Hvowel)
      as (prime & Hp & Ha).
    rewrite Hheard, Ha. cbn [fst snd].
    exists prime. eexists. split; [exact Hp|]. split; [reflexivity|].
    rewrite served_file. unfold WireSummary.stored.
    split; [|split; [|split; [|split]]].
    + intros -> Hroom. destruct (Wire.room w) as [k|]; [|reflexivity].
      cbn [fst]. now rewrite firstn_all2 by (apply Hroom; reflexivity).
    + intros ->. destruct (Wire.room w); cbn [fst];
        [rewrite firstn_nil|]; apply app_nil_r.
    + intros k -> -> _. reflexivity.
    + apply served_delivered.
    + intros later. apply served_refused, first_line_count.
  - intros [Hnone | [(got & Hgot & Hd) | (got & raw & Hgot & Hd & Hcase)]];
      rewrite served_file; unfold heard, decoded.
    + rewrite Hnone. cbn [Summary.vowel_answer snd].
      rewrite stored_nothing. apply app_nil_r.
    + rewrite Hgot, Hd. cbn [Summary.vowel_answer snd].
      rewrite stored_nothing. apply app_nil_r.
    + rewrite Hgot, Hd, vowel_answer_failed by exact Hcase.
      rewrite stored_nothing. apply app_nil_r.
Qed.

Lemma one_record_when_log_takes_it_witness :
  exists prime record,
    @TCPServerEnhanced.is_prime sample_pow
      (Z.of_nat (@TCPServerEnhanced.count_vowel_occurrences sample_ucd
                   (@PyStr.strip sample_ucd (str_of "hola"))
                   (@TCPServerEnhanced.find_last_vowel sample_ucd
                      (@PyStr.strip sample_ucd (str_of "hola")))))
    = Some prime /\
    record
    = Summary.log_record (str_of "2024-05-17 10:30:00")
        (@PyStr.strip sample_ucd (str_of "hola"))
        (@TCPServerEnhanced.count_vowel_occurrences sample_ucd
           (@PyStr.strip sample_ucd (str_of "hola"))
           (@TCPServerEnhanced.find_last_vowel sample_ucd
              (@PyStr.strip sample_ucd (str_of "hola"))))
        (Summary.verdict prime)
        (@TCPServerEnhanced.find_last_vowel sample_ucd
           (@PyStr.strip sample_ucd (str_of "hola"))) /\
    Wire.file (run (@TCPServerEnhancedOnWire.handle_client sample_ucd sample_pow)
                 (Wire.connection "hola" [] [] true None))
    = [] ++ record.
Proof.
  destruct (proj1 (@one_record_when_log_takes_it sample_ucd sample_pow
                     (Wire.connection "hola" [] [] true None))
              "hola"%string (str_of "hola"))
    as (prime & record & Hp & Hr & Hfull & _).
  - reflexivity.
  - reflexivity.
  - discriminate.
  - reflexivity.
  - exists 97%N. split; vm_compute; tauto.
  - exists prime, record. split; [exact Hp|]. split; [exact Hr|].
    apply Hfull; [reflexivity | discriminate].
Defined.

(** The claim as stated fails on the message "hola" in three ways.  When
    the log file cannot be opened the message is analysed and answered
    with its count, and no record is appended.  When the disk takes ten
    characters the message is answered with its count, and the log ends in
    the first ten characters of a record.  When sending the count raises,
    the handler is on its internal-error branch and sends that line, and
    the record is in the log. *)
Lemma record_follows_the_log_not_the_reply :
  (Wire.calls (run (@TCPServerEnhancedOnWire.handle_client sample_ucd sample_pow)
                 (Wire.connection "hola" [] [] false None))
   = [Sent (count_line 1)] /\
   Wire.file (run (@TCPServerEnhancedOnWire.handle_client sample_ucd sample_pow)
                (Wire.connection "hola" [] [] false None))
   = []) /\
  (Wire.calls (run (@TCPServerEnhancedOnWire.handle_client sample_ucd sample_pow)
                 (Wire.connection "hola" [] [] true (Some 10%nat)))
   = [Sent (count_line 1)] /\
   Wire.file (run (@TCPServerEnhancedOnWire.handle_client sample_ucd sample_pow)
                (Wire.connection "hola" [] [] true (Some 10%nat)))
   = str_of "Fecha: 202") /\
  (Wire.calls (run (@TCPServerEnhancedOnWire.handle_client sample_ucd sample_pow)
                 (Wire.connection "hola" [true] [] true None))
   = [SendRaised (count_line 1); Sent ERR_INTERNAL] /\
   Wire.file (run (@TCPServerEnhancedOnWire.handle_client sample_ucd sample_pow)
                (Wire.connection "hola" [true] [] true None))
   = Summary.log_record (str_of "2024-05-17 10:30:00") (str_of "hola") 1
       (str_of "NO") (Some (str_of "a"))).
Proof. repeat split; vm_compute; reflexivity. Qed.

Section Undecodable.
Open Scope N_scope.

Lemma lead_not_continuation (n : N) :
  n < 128 \/ 192 <= n < 256 -> Utf8.continuation (Utf8.byte n) = None.
Proof.
  intro H. unfold Utf8.continuation. cbv zeta.
  rewrite byte_value by lia.
  destruct (N.leb_spec 128 n), (N.ltb_spec n 192); (reflexivity || lia).
Qed.

Lemma encode_char_head (c : char) (b : ascii) (rest : string) :
  Utf8.encode_char c = Some (String b rest) -> Utf8.continuation b = None.
Proof.
  unfold Utf8.encode_char.
  destruct (N.ltb_spec c 128) as [L1|L1].
  { intro E. apply some_eq, string_cons_inv in E as [-> _].
    apply lead_not_continuation. lia. }
  destruct (N.ltb_spec c 2048) as [L2|L2].
  { intro E. apply some_eq, string_cons_inv in E as [-> _].
    apply lead_not_continuation; zify; Z.to_euclidean_division_equations; lia. }
  destruct (N.ltb_spec c 65536) as [L3|L3].
  { destruct (Utf8.is_surrogate c); [discriminate|].
    intro E. apply some_eq, string_cons_inv in E as [-> _].
    apply lead_not_continuation; zify; Z.to_euclidean_division_equations; lia. }
  destruct (N.ltb_spec c 1114112) as [L4|L4]; [|discriminate].
  intro E. apply some_eq, string_cons_inv in E as [-> _].
  apply lead_not_continuation; zify; Z.to_euclidean_division_equations; lia.
Qed.

Lemma encode_head (t : str) (b : ascii) (rest : string) :
  Utf8.encode t = Some (String b rest) -> Utf8.continuation b = None.
Proof.
  destruct t as [|c t]; simpl; [discriminate|].
  destruct (Utf8.encode_char c) as [[|b0 bs]|] eqn:Hc; try discriminate.
  - exfalso. revert Hc. unfold Utf8.encode_char.
    repeat match goal with
           | |- context [if ?x then _ else _] => destruct x
           end; discriminate.
  - destruct (Utf8.encode t); [|discriminate].
    intro H. apply some_eq in H. cbn [String.append] in H.
    apply string_cons_inv in H as [-> _].
    exact (encode_char_head c b0 bs Hc).
Qed.

Lemma push_none (c : char) (o : option str) :
  Utf8.push c o = None -> o = None.
Proof. destruct o; [discriminate | reflexivity]. Qed.

(** Bytes that do not decode do not decode either with encoded text after
    them. *)
Lemma undecodable_app (n : nat) (got after : string) (t : str) :
  (String.length got <= n)%nat ->
  Utf8.encode t = Some after ->
  Utf8.decode got = None -> Utf8.decode (got ++ after) = None.
Proof.
  intros Hn Ht. revert got Hn.
  assert (Hhead : forall b rest, after = String b rest ->
                                 Utf8.continuation b = None).
  { intros b rest ->. exact (encode_head t b rest Ht). }
  induction n as [|n IH]; intros got Hn H.
  { destruct got; [discriminate | simpl in Hn; lia]. }
  destruct got as [|b0 r0]; [discriminate|].
  cbn [String.append]. cbn [Utf8.decode] in *. cbv zeta in *.
  destruct (N_of_ascii b0 <? 128).
  { apply push_none in H. rewrite (IH r0); [reflexivity | simpl in Hn; lia | exact H]. }
  destruct (N_of_ascii b0 <? 194); [reflexivity|].
  destruct (N_of_ascii b0 <? 224).
  { destruct r0 as [|b1 r1]; cbn [String.append].
    - destruct after as [|a1 after']; [reflexivity|].
      now rewrite (Hhead a1 after' eq_refl).
    - destruct (Utf8.continuation b1); [|reflexivity].
      apply push_none in H.
      rewrite (IH r1); [reflexivity | simpl in Hn; lia | exact H]. }
  destruct (N_of_ascii b0 <? 240).
  { destruct r0 as [|b1 [|b2 r2]]; cbn [String.append].
    - destruct after as [|a1 [|a2 after']]; try reflexivity.
      now rewrite (Hhead a1 _ eq_refl).
    - destruct after as [|a1 after']; [reflexivity|].
      rewrite (Hhead a1 after' eq_refl).
      now destruct (Utf8.continuation b1).
    - destruct (Utf8.continuation b1); [|reflexivity].
      destruct (Utf8.continuation b2); [|reflexivity].
      destruct (_ || _); [reflexivity|].
      apply push_none in H.
      rewrite (IH r2); [reflexivity | simpl in Hn; lia | exact H]. }
  destruct (N_of_ascii b0 <? 245); [|reflexivity].
  destruct r0 as [|b1 [|b2 [|b3 r3]]]; cbn [String.append].
  - destruct after as [|a1 [|a2 [|a3 after']]]; try reflexivity.
    now rewrite (Hhead a1 _ eq_refl).
  - destruct after as [|a1 [|a2 after']]; try reflexivity.
    rewrite (Hhead a1 _ eq_refl).
    now destruct (Utf8.continuation b1).
  - destruct after as [|a1 after']; [reflexivity|].
    rewrite (Hhead a1 after' eq_refl).
    now destruct (Utf8.continuation b1), (Utf8.continuation b2).
  - destruct (Utf8.continuation b1); [|reflexivity].
    destruct (Utf8.continuation b2); [|reflexivity].
    destruct (Utf8.continuation b3); [|reflexivity].
    destruct (_ || _); [reflexivity|].
    apply push_none in H.
    rewrite (IH r3); [reflexivity | simpl in Hn; lia | exact H].
Qed.

End Undecodable.

Section Padding.
Context {U : UnicodeData} {F : FloatPow}.

Lemma heard_whole (bufsize : nat) (got : string) (w : Wire.world) :
  (String.length got <= bufsize)%nat ->
  heard bufsize (Wire.arriving got w) = decoded got.
Proof.
  intro Hlen. unfold heard. cbn [Wire.arriving Wire.arrived].
  now rewrite substring_all.
Qed.

Lemma decoded_padded (ws ws' : str) (before after payload : string) :
  Utf8.encode ws = Some before -> Utf8.encode ws' = Some after ->
  decoded (before ++ payload ++ after)
  = match decoded payload with
    | Received raw => Received (ws ++ raw ++ ws')
    | RecvFailed => RecvFailed
    end.
Proof.
  intros Hb Ha. unfold decoded.
  rewrite (decode_encode_app ws before _ Hb).
  destruct (Utf8.decode payload) as [raw|] eqn:Hd.
  - apply (encode_decode_bounded _ _ _ (Nat.le_refl _)) in Hd.
    rewrite (decode_encode_app raw payload _ Hd).
    now rewrite (decode_encoded ws' after Ha).
  - now rewrite (undecodable_app _ payload after ws' (Nat.le_refl _) Ha Hd).
Qed.

Lemma last_character_answer_padding (ws ws' : str) (rx : received) :
  forallb isspace_char ws = true -> forallb isspace_char ws' = true ->
  Summary.last_character_answer
    match rx with
    | Received raw => Received (ws ++ raw ++ ws')
    | RecvFailed => RecvFailed
    end
  = Summary.last_character_answer rx.
Proof.
  intros Hws Hws'. destruct rx as [raw|]; [|reflexivity].
  unfold Summary.last_character_answer. cbv zeta.
  now rewrite strip_padding.
Qed.

Lemma vowel_answer_padding (ws ws' timestamp : str) (writable : bool)
    (rx : received) :
  forallb isspace_char ws = true -> forallb isspace_char ws' = true ->
  Summary.vowel_answer
    match rx with
    | Received raw => Received (ws ++ raw ++ ws')
    | RecvFailed => RecvFailed
    end timestamp writable
  = Summary.vowel_answer rx timestamp writable.
Proof.
  intros Hws Hws'. destruct rx as [raw|]; [|reflexivity].
  unfold Summary.vowel_answer. cbv zeta.
  now rewrite strip_padding.
Qed.

End Padding.

(** C9 (amended).  White space before or after a payload changes nothing
    as long as the payload with it still fits in the one read (1024 bytes
    in the last-character server, 4096 in the vowel server): the handler
    then makes the same calls of [sendall], and the vowel server writes
    the same to the log, as for the payload alone; and when [sendall] does
    not raise, what is sent is the answer to the payload, trimmed.  The
    payload is any bytes, UTF-8 or not. *)
Theorem padding_ignored_within_read {U : UnicodeData} {F : FloatPow}
    (ws ws' : str) (before after payload : string) (w : Wire.world) :
  forallb isspace_char ws = true ->
  forallb isspace_char ws' = true ->
  Utf8.encode ws = Some before ->
  Utf8.encode ws' = Some after ->
  ((String.length (before ++ payload ++ after) <= 1024)%nat ->
   Wire.calls (run TCPServerOnWire.handle_client
                 (Wire.arriving (before ++ payload ++ after) w))
   = Wire.calls (run TCPServerOnWire.handle_client (Wire.arriving payload w)) /\
   (hd false (Wire.send_faults w) = false ->
    Wire.calls (run TCPServerOnWire.handle_client
                  (Wire.arriving (before ++ payload ++ after) w))
    = Wire.calls w ++
      [Sent (Summary.last_character_answer (decoded payload))])) /\
  ((String.length (before ++ payload ++ after) <= 4096)%nat ->
   Wire.calls (run TCPServerEnhancedOnWire.handle_client
                 (Wire.arriving (before ++ payload ++ after) w))
   = Wire.calls (run TCPServerEnhancedOnWire.handle_client
                   (Wire.arriving payload w)) /\
   Wire.file (run TCPServerEnhancedOnWire.handle_client
                (Wire.arriving (before ++ payload ++ after) w))
   = Wire.file (run TCPServerEnhancedOnWire.handle_client
                  (Wire.arriving payload w)) /\
   (hd false (Wire.send_faults w) = false ->
    Wire.calls (run TCPServerEnhancedOnWire.handle_client
                  (Wire.arriving (before ++ payload ++ after) w))
    = Wire.calls w ++
      [Sent (fst (Summary.vowel_answer (decoded payload) (Wire.now w)
                    (Wire.openable w)))])).
Proof.
  intros Hws Hws' Hb Ha.
  assert (Hle : (String.length payload
                 <= String.length (before ++ payload ++ after))%nat).
  { rewrite !string_length_app. lia. }
  split; intro Hlen.
  - destruct (handle_client_on_wire
                (Wire.arriving (before ++ payload ++ after) w)) as [-> _].
    destruct (handle_client_on_wire (Wire.arriving payload w)) as [-> _].
    rewrite (heard_whole 1024 _ w Hlen), (heard_whole 1024 payload w) by lia.
    rewrite (decoded_padded ws ws') by assumption.
    rewrite last_character_answer_padding by assumption.
    split; [now rewrite !served_calls|].
    intro Hf. now rewrite served_delivered.
  - destruct (handle_client_enhanced_on_wire
                (Wire.arriving (before ++ payload ++ after) w)) as [E1 _].
    destruct (handle_client_enhanced_on_wire (Wire.arriving payload w))
      as [E2 _].
    cbv zeta in E1, E2. rewrite E1, E2. clear E1 E2.
    rewrite (heard_whole 4096 _ w Hlen), (heard_whole 4096 payload w) by lia.
    rewrite (decoded_padded ws ws') by assumption.
    cbn [Wire.arriving Wire.now Wire.openable].
    rewrite vowel_answer_padding by assumption.
    split; [now rewrite !served_calls|].
    split; [now rewrite !served_file|].
    intro Hf. now rewrite served_delivered.
Qed.

Lemma padding_ignored_within_read_witness :
  ((String.length ("  " ++ "hola" ++ " ") <= 1024)%nat ->
   Wire.calls (run (@TCPServerOnWire.handle_client sample_ucd)
                 (Wire.arriving ("  " ++ "hola" ++ " ")
                    (Wire.connection "" [] [] true None)))
   = Wire.calls (run (@TCPServerOnWire.handle_client sample_ucd)
                   (Wire.arriving "hola" (Wire.connection "" [] [] true None))) /\
   (hd false [] = false ->
    Wire.calls (run (@TCPServerOnWire.handle_client sample_ucd)
                  (Wire.arriving ("  " ++ "hola" ++ " ")
                     (Wire.connection "" [] [] true None)))
    = [] ++
      [Sent (@Summary.last_character_answer sample_ucd (decoded "hola"))])) /\
  ((String.length ("  " ++ "hola" ++ " ") <= 4096)%nat ->
   Wire.calls (run (@TCPServerEnhancedOnWire.handle_client sample_ucd sample_pow)
                 (Wire.arriving ("  " ++ "hola" ++ " ")
                    (Wire.connection "" [] [] true None)))
   = Wire.calls (run (@TCPServerEnhancedOnWire.handle_client sample_ucd
                        sample_pow)
                   (Wire.arriving "hola" (Wire.connection "" [] [] true None))) /\
   Wire.file (run (@TCPServerEnhancedOnWire.handle_client sample_ucd sample_pow)
                (Wire.arriving ("  " ++ "hola" ++ " ")
                   (Wire.connection "" [] [] true None)))
   = Wire.file (run (@TCPServerEnhancedOnWire.handle_client sample_ucd
                       sample_pow)
                  (Wire.arriving "hola" (Wire.connection "" [] [] true None))) /\
   (hd false [] = false ->
    Wire.calls (run (@TCPServerEnhancedOnWire.handle_client sample_ucd sample_pow)
                  (Wire.arriving ("  " ++ "hola" ++ " ")
                     (Wire.connection "" [] [] true None)))
    = [] ++
      [Sent (fst (@Summary.vowel_answer sample_ucd sample_pow (decoded "hola")
                    (str_of "2024-05-17 10:30:00") true))])).
Proof.
  apply (@padding_ignored_within_read sample_ucd sample_pow
           (str_of "  ") (str_of " ") "  " " " "hola"
           (Wire.connection "" [] [] true None));
    reflexivity.
Defined.

(** The claim as stated, for every payload, fails where the read cuts the
    payload.  In the last-character server 1023 times "a" and one "b" are
    answered with 1; with one space in front the read ends before the "b",
    and the answer is 1023.  In the vowel server 4095 times "b" and one "a"
    are answered with 1; with one space in front the "a" is not read, and
    the answer is the no-vowel error. *)
Lemma padding_moves_the_cut :
  (Wire.calls (run (@TCPServerOnWire.handle_client sample_ucd)
                 (Wire.connection (bytes_of "a" 1023 ++ "b") [] [] true None))
   = [Sent (count_line 1)] /\
   Wire.calls (run (@TCPServerOnWire.handle_client sample_ucd)
                 (Wire.connection (" " ++ bytes_of "a" 1023 ++ "b")
                    [] [] true None))
   = [Sent (count_line 1023)]) /\
  (Wire.calls (run (@TCPServerEnhancedOnWire.handle_client sample_ucd sample_pow)
                 (Wire.connection (bytes_of "b" 4095 ++ "a") [] [] true None))
   = [Sent (count_line 1)] /\
   Wire.calls (run (@TCPServerEnhancedOnWire.handle_client sample_ucd sample_pow)
                 (Wire.connection (" " ++ bytes_of "b" 4095 ++ "a")
                    [] [] true None))
   = [Sent TCPServerEnhanced.ERR_NO_VOWEL]).
Proof. split; split; vm_compute; reflexivity. Qed.

(** The two worlds agree.  On a connection where the first [sendall] does
    not raise and the disk takes what is written, a handler on the wire
    sends the line, and the vowel server leaves the log file, that the
    handler of the plain [world] gives for the text decoded from the bytes
    of the one read. *)
Theorem wire_agrees_with_world {U : UnicodeData} {F : FloatPow}
    (w : Wire.world) :
  hd false (Wire.send_faults w) = false ->
  Wire.room w = None ->
  Wire.calls (run TCPServerOnWire.handle_client w)
  = Wire.calls w ++
    map Sent
      (sock_out (run TCPServer.handle_client
                   (mkWorld (heard 1024 w) [] false (Wire.file w)
                      (Wire.openable w) (Wire.now w)))) /\
  Wire.calls (run TCPServerEnhancedOnWire.handle_client w)
  = Wire.calls w ++
    map Sent
      (sock_out (run TCPServerEnhanced.handle_client
                   (mkWorld (heard 4096 w) [] false (Wire.file w)
                      (Wire.openable w) (Wire.now w)))) /\
  Wire.file (run TCPServerEnhancedOnWire.handle_client w)
  = log_file (run TCPServerEnhanced.handle_client
                (mkWorld (heard 4096 w) [] false (Wire.file w)
                   (Wire.openable w) (Wire.now w))).
Proof.
  intros Hf Hroom.
  destruct (handle_client_on_wire w) as [-> _].
  destruct (handle_client_enhanced_on_wire w) as [E _]. cbv zeta in E.
  rewrite E. clear E.
  rewrite handle_client_run, handle_client_enhanced_run. cbv zeta.
  unfold served. cbn [sock_in sock_out log_file log_writable clock app map].
  rewrite !served_delivered by exact Hf.
  rewrite served_file, Hroom. auto.
Qed.

Lemma wire_agrees_with_world_witness :
  Wire.calls (run (@TCPServerOnWire.handle_client sample_ucd)
                (Wire.connection "hola" [] [] true None))
  = [] ++
    map Sent
      (sock_out (run (@TCPServer.handle_client sample_ucd)
                   (mkWorld
                      (heard 1024 (Wire.connection "hola" [] [] true None))
                      [] false [] true (str_of "2024-05-17 10:30:00")))) /\
  Wire.calls (run (@TCPServerEnhancedOnWire.handle_client sample_ucd sample_pow)
                (Wire.connection "hola" [] [] true None))
  = [] ++
    map Sent
      (sock_out (run (@TCPServerEnhanced.handle_client sample_ucd sample_pow)
                   (mkWorld
                      (heard 4096 (Wire.connection "hola" [] [] true None))
                      [] false [] true (str_of "2024-05-17 10:30:00")))) /\
  Wire.file (run (@TCPServerEnhancedOnWire.handle_client sample_ucd sample_pow)
               (Wire.connection "hola" [] [] true None))
  = log_file (run (@TCPServerEnhanced.handle_client sample_ucd sample_pow)
                (mkWorld
                   (heard 4096 (Wire.connection "hola" [] [] true None))
                   [] false [] true (str_of "2024-05-17 10:30:00"))).
Proof.
  apply (@wire_agrees_with_world sample_ucd sample_pow
           (Wire.connection "hola" [] [] true None)); reflexivity.
Defined.
